(** * Asynchronous inference pipeline with ordered result delivery

    A shallow embedding of [demos/common/processing/src/async_pipeline.cpp]
    (class [PipelineBase]): submission of requests to a pool of inference
    requests, the completion callback the backend runs for each of them, and
    the in-order retrieval of the results.

    Conventions of the embedding.
    - [int64_t] values are integers of [Z]; the one arithmetic operation of
      the file, a post-increment, is written with its two's complement
      wrap-around ([wrap64]).
    - The members of [PipelineBase] are the fields of a record; a member
      function is a computation in a state-and-exception monad [Eff] over that
      record. A C++ exception leaves the state as it was at the [throw].
    - [std::unordered_map<int64_t, InferenceResult>] is a [gmap Z _];
      [std::map<std::string, Blob>] is a [gmap string _].
    - Code that runs under [mtx] is one atomic step. [getInferenceResult] and
      [submitRequest] touch [outputFrameId], [inputFrameId] and [perfMetrics]
      outside of the lock; the completion callback reads and writes none of
      these three, so each member function is one step as well. *)

From stdpp Require Import gmap strings list fin_maps.

Local Open Scope Z_scope.

(** ** 64-bit signed integers *)

(** The value an [int64_t] holds after a computation whose exact result is
    [z]. *)
Definition wrap64 (z : Z) : Z := (z + 2 ^ 63) `mod` 2 ^ 64 - 2 ^ 63.

Definition INT64_MAX : Z := 2 ^ 63 - 1.

(** ** The pool of inference requests *)

(** An [InferenceEngine::InferRequest::Ptr]: the position of the request in
    the pool. A null pointer is [None] of [option Request]. *)
Definition Request : Type := nat.

(** Modelled from the spec: [RequestsPool] (requests_pool.h and its
    implementation are not among the sources). The spec's WorkerSlotPool
    "owns a fixed-size collection of reusable execution slots; tracks which
    are idle vs busy; hands out an idle slot on demand". The pool is the list
    of the slots' busy flags. *)
Definition RequestsPool_new (size : nat) : list bool := replicate size false.

(** Modelled from the spec: "a slot is idle and available for new
    submissions". *)
Definition isIdleRequestAvailable (pool : list bool) : bool :=
  existsb negb pool.

(** Position of the first idle slot at or after position [i]. *)
Fixpoint find_idle (i : nat) (pool : list bool) : option Request :=
  match pool with
  | [] => None
  | busy :: rest => if busy then find_idle (S i) rest else Some i
  end.

(** Modelled from the spec: "attempt to acquire an idle slot from
    WorkerSlotPool (non-blocking probe)"; the slot handed out becomes busy,
    and a pool with no idle slot is left as it is. *)
Definition getIdleRequest (pool : list bool) : option Request * list bool :=
  match find_idle 0 pool with
  | Some r => (Some r, <[r := true]> pool)
  | None => (None, pool)
  end.

(** Modelled from the spec: "Return the slot to WorkerSlotPool as idle". *)
Definition setRequestIdle (pool : list bool) (request : Request) : list bool :=
  <[request := false]> pool.

(** [std::map::emplace] and [std::unordered_map::emplace]: the element is
    inserted only when the container has no element with that key; the
    second component tells whether the insertion took place. *)
Definition emplace `{Countable K} {V} (k : K) (v : V) (m : gmap K V)
  : gmap K V * bool :=
  match m !! k with
  | Some _ => (m, false)
  | None => (<[k := v]> m, true)
  end.

Section Model.

(** Types the pipeline passes through without looking inside: the data of an
    output blob, the metadata of a frame, a captured exception
    ([std::exception_ptr]), an input image and what [postprocess] makes of a
    result. *)
Context {Blob MetaData Exn Image Payload : Type}.

(** ** Results *)

Record InferenceResult : Type := mkInferenceResult {
  frameId : Z;
  metaData : MetaData;
  outputsData : gmap string Blob;
  startTime : Z
}.

(** What the header declares for [InferenceResult] and this file uses: the
    default constructor and [IsEmpty]. The header is not among the sources;
    both are parameters of the model. *)
Class ResultDecl : Type := {
  InferenceResult_new : InferenceResult;
  IsEmpty : InferenceResult → bool
}.

(** A result of [getResult]: the [ResultBase] part, copied from the inference
    result, and the part [postprocess] computed. *)
Record Result : Type := mkResult {
  res_frameId : Z;
  res_metaData : MetaData;
  res_payload : Payload
}.

(** The interface [ModelBase], as far as the pipeline calls it. *)
Class ModelBase : Type := {
  getOutputsNames : list string;
  preprocess : Image → Request → Exn + MetaData;
  postprocess : InferenceResult → Exn + Payload
}.

(** ** The pipeline *)

(** What the lambda of [submitRequest] captures. *)
Record Callback : Type := mkCallback {
  cb_frameStartTime : Z;
  cb_frameID : Z;
  cb_request : Request;
  cb_metaData : MetaData
}.

(** The members of [PipelineBase]. [perfMetrics] is the list of the
    arguments of the [perfMetrics.update] calls, oldest first. [started] is
    the state of the requests themselves: the callbacks of the requests that
    [StartAsync] started and that the backend has not completed yet. *)
Record PipelineBase : Type := mkPipelineBase {
  requestsPool : list bool;
  completedInferenceResults : gmap Z InferenceResult;
  perfMetrics : list Z;
  inputFrameId : Z;
  outputFrameId : Z;
  callbackException : option Exn;
  started : list Callback
}.

Definition set_requestsPool (p : PipelineBase) (v : list bool) :=
  mkPipelineBase v (completedInferenceResults p) (perfMetrics p)
    (inputFrameId p) (outputFrameId p) (callbackException p) (started p).

Definition set_completedInferenceResults (p : PipelineBase)
    (v : gmap Z InferenceResult) :=
  mkPipelineBase (requestsPool p) v (perfMetrics p)
    (inputFrameId p) (outputFrameId p) (callbackException p) (started p).

Definition set_perfMetrics (p : PipelineBase) (v : list Z) :=
  mkPipelineBase (requestsPool p) (completedInferenceResults p) v
    (inputFrameId p) (outputFrameId p) (callbackException p) (started p).

Definition set_inputFrameId (p : PipelineBase) (v : Z) :=
  mkPipelineBase (requestsPool p) (completedInferenceResults p) (perfMetrics p)
    v (outputFrameId p) (callbackException p) (started p).

Definition set_outputFrameId (p : PipelineBase) (v : Z) :=
  mkPipelineBase (requestsPool p) (completedInferenceResults p) (perfMetrics p)
    (inputFrameId p) v (callbackException p) (started p).

Definition set_callbackException (p : PipelineBase) (v : option Exn) :=
  mkPipelineBase (requestsPool p) (completedInferenceResults p) (perfMetrics p)
    (inputFrameId p) (outputFrameId p) v (started p).

Definition set_started (p : PipelineBase) (v : list Callback) :=
  mkPipelineBase (requestsPool p) (completedInferenceResults p) (perfMetrics p)
    (inputFrameId p) (outputFrameId p) (callbackException p) v.

(** The pipeline the constructor leaves: a pool of [size] requests
    ([cnnConfig.maxAsyncRequests]), all idle.
    Modelled from the spec: the initial values of the two counters and of
    [callbackException] are member initialisers of the header, which is not
    among the sources; sequence ids are delivered "starting at 0", and no
    failure is captured before a callback ran. *)
Definition PipelineBase_new (size : nat) : PipelineBase :=
  mkPipelineBase (RequestsPool_new size) ∅ [] 0 0 None [].

(** ** State and exceptions *)

Definition Eff (A : Type) : Type := PipelineBase → (Exn + A) * PipelineBase.

Definition ret {A} (a : A) : Eff A := λ p, (inr a, p).

Definition throw {A} (e : Exn) : Eff A := λ p, (inl e, p).

Definition bind {A B} (m : Eff A) (k : A → Eff B) : Eff B :=
  λ p, match m p with
       | (inl e, p') => (inl e, p')
       | (inr a, p') => k a p'
       end.

Definition try_catch {A} (m : Eff A) (handler : Exn → Eff A) : Eff A :=
  λ p, match m p with
       | (inl e, p') => handler e p'
       | (inr a, p') => (inr a, p')
       end.

Definition gets {A} (f : PipelineBase → A) : Eff A := λ p, (inr (f p), p).

Definition modify (f : PipelineBase → PipelineBase) : Eff unit :=
  λ p, (inr (), f p).

Definition lift {A} (r : Exn + A) : Eff A :=
  match r with
  | inl e => throw e
  | inr a => ret a
  end.

#[global] Instance Eff_ret : MRet Eff := @ret.

#[global] Instance Eff_bind : MBind Eff := λ A B k m, bind m k.

Context `{!ResultDecl, !ModelBase}.

(** ** [waitForData] *)

(** The predicate [condVar.wait] waits for. *)
Definition waitForData_ready (p : PipelineBase) : bool :=
  bool_decide (callbackException p ≠ None)
  || isIdleRequestAvailable (requestsPool p)
  || bool_decide (completedInferenceResults p !! outputFrameId p ≠ None).

(** [None]: the caller stays in [condVar.wait]. [Some (inl e)]: the call
    rethrows [e]. [Some (inr ())]: the call returns. The predicate and
    [callbackException] are read under the same hold of the lock. *)
Definition waitForData (p : PipelineBase) : option (Exn + unit) :=
  if waitForData_ready p then
    match callbackException p with
    | Some e => Some (inl e)
    | None => Some (inr ())
    end
  else None.

(** ** The completion callback *)

(** The loop over [model->getOutputsNames()]: [GetBlob] is what the request
    answers for each output name at the time of the completion, an exception
    or the blob, and each blob is copied into [outputsData]. *)
Fixpoint extractOutputs (GetBlob : string → Exn + Blob) (names : list string)
    (outputs : gmap string Blob) : Exn + gmap string Blob :=
  match names with
  | [] => inr outputs
  | outName :: rest =>
      match GetBlob outName with
      | inl e => inl e
      | inr blob => extractOutputs GetBlob rest (emplace outName blob outputs).1
      end
  end.

(** The hook [onProcessingCompleted]: a virtual member function. It is
    modelled by its outcome, a return ([None]) or an exception; it leaves the
    members of the pipeline as they are. *)
Definition onProcessingCompleted (outcome : option Exn) : Eff unit :=
  match outcome with
  | Some e => throw e
  | None => ret ()
  end.

(** The body of the lambda, from taking the lock to releasing it. *)
Definition completionCallback (cb : Callback) (GetBlob : string → Exn + Blob)
    (hook : option Exn) : Eff unit :=
  try_catch
    (outputs ← lift (extractOutputs GetBlob getOutputsNames ∅);
     let result :=
       mkInferenceResult (cb_frameID cb) (cb_metaData cb) outputs
         (cb_frameStartTime cb) in
     modify (λ p, set_completedInferenceResults p
                    (emplace (cb_frameID cb) result
                       (completedInferenceResults p)).1);;
     modify (λ p, set_requestsPool p
                    (setRequestIdle (requestsPool p) (cb_request cb)));;
     onProcessingCompleted hook)
    (λ e,
     current ← gets callbackException;
     match current with
     | None => modify (λ p, set_callbackException p (Some e))
     | Some _ => ret ()
     end).

(** ** Submission *)

(** [request->SetCompletionCallback] and a [request->StartAsync] that
    returns, together: the backend will run the callback when the request
    completes. The call that throws is [StartAsync_or_throw], further down. *)
Definition StartAsync (callback : Callback) : Eff unit :=
  modify (λ p, set_started p (started p ++ [callback])).

Definition submitRequest (request : Request) (metaData : MetaData) (now : Z)
  : Eff Z :=
  let frameStartTime := now in
  frameID ← gets inputFrameId;
  let callback := mkCallback frameStartTime frameID request metaData in
  modify (λ p, set_inputFrameId p (wrap64 (inputFrameId p + 1)));;
  modify (λ p, if inputFrameId p <? 0 then set_inputFrameId p 0 else p);;
  StartAsync callback;;
  ret frameID.

(** [requestsPool->getIdleRequest()] on the pool of the pipeline. *)
Definition acquireIdleRequest : Eff (option Request) :=
  λ p, let '(request, pool) := getIdleRequest (requestsPool p) in
       (inr request, set_requestsPool p pool).

(** [now] is what [std::chrono::steady_clock::now()] answers in
    [submitRequest]. *)
Definition submitImage (img : Image) (now : Z) : Eff Z :=
  request ← acquireIdleRequest;
  match request with
  | None => ret (-1)
  | Some request =>
      md ← lift (preprocess img request);
      submitRequest request md now
  end.

(** ** Retrieval *)

Definition getInferenceResult : Eff InferenceResult :=
  it ← gets (λ p, completedInferenceResults p !! outputFrameId p);
  retVal ← match it with
           | Some r =>
               modify (λ p, set_completedInferenceResults p
                 (delete (outputFrameId p) (completedInferenceResults p)));;
               ret r
           | None => ret InferenceResult_new
           end;
  (if negb (IsEmpty retVal) then
     modify (λ p, set_outputFrameId p (frameId retVal));;
     modify (λ p, set_outputFrameId p (wrap64 (outputFrameId p + 1)));;
     modify (λ p, if outputFrameId p <? 0 then set_outputFrameId p 0 else p);;
     modify (λ p, set_perfMetrics p (perfMetrics p ++ [startTime retVal]))
   else ret ());;
  ret retVal.

(** [None] is the null [std::unique_ptr]. *)
Definition getResult : Eff (option Result) :=
  infResult ← getInferenceResult;
  if IsEmpty infResult then ret None
  else
    payload ← lift (postprocess infResult);
    ret (Some (mkResult (frameId infResult) (metaData infResult) payload)).

(** ** Runs of the pipeline *)

(** What happens to a pipeline: a call of the driver thread, or the backend
    completing one of the started requests, the one at position [i] of
    [started]. A request completes once: its callback leaves [started] when it
    runs. [getResult] changes the pipeline as the [getInferenceResult] it
    starts with does, so a retrieval is written as the latter. *)
Inductive Event : Type :=
  | SubmitImage (img : Image) (now : Z)
  | Completion (i : nat) (GetBlob : string → Exn + Blob) (hook : option Exn)
  | GetInferenceResult
  | WaitForData.

(** What the caller sees of it. *)
Inductive Observation : Type :=
  | Submitted (r : Exn + Z)
  | Completed (frameID : option Z)
  | Inferred (r : Exn + InferenceResult)
  | Waited (r : option (Exn + unit)).

Definition step (ev : Event) (p : PipelineBase) : Observation * PipelineBase :=
  match ev with
  | SubmitImage img now =>
      let '(r, p') := submitImage img now p in (Submitted r, p')
  | Completion i GetBlob hook =>
      match started p !! i with
      | Some cb =>
          let p1 := set_started p (delete i (started p)) in
          (Completed (Some (cb_frameID cb)),
           (completionCallback cb GetBlob hook p1).2)
      | None => (Completed None, p)
      end
  | GetInferenceResult =>
      let '(r, p') := getInferenceResult p in (Inferred r, p')
  | WaitForData => (Waited (waitForData p), p)
  end.

Fixpoint run (evs : list Event) (p : PipelineBase)
  : list Observation * PipelineBase :=
  match evs with
  | [] => ([], p)
  | ev :: rest =>
      let '(o, p1) := step ev p in
      let '(os, p2) := run rest p1 in
      (o :: os, p2)
  end.

(** The frame ids of the results the caller received: the returns of
    [getInferenceResult] that are not empty. *)
Fixpoint delivered (obs : list Observation) : list Z :=
  match obs with
  | [] => []
  | Inferred (inr r) :: rest =>
      if IsEmpty r then delivered rest else frameId r :: delivered rest
  | _ :: rest => delivered rest
  end.

(** The frame ids [submitImage] returned to the caller. *)
Fixpoint accepted (obs : list Observation) : list Z :=
  match obs with
  | [] => []
  | Submitted (inr id) :: rest =>
      if id =? -1 then accepted rest else id :: accepted rest
  | _ :: rest => accepted rest
  end.

(** ** Definitions the properties are stated with *)

(** The counter after [id++; if (id < 0) id = 0;]. *)
Definition next_id (id : Z) : Z :=
  if wrap64 (id + 1) <? 0 then 0 else wrap64 (id + 1).

(** What the [catch] block of the callback does with the exception [e]. *)
Definition record_exception (e : Exn) (p : PipelineBase) : PipelineBase :=
  match callbackException p with
  | None => set_callbackException p (Some e)
  | Some _ => p
  end.

(** The store and the pool after the three statements of the [try] block
    that follow a successful extraction of the outputs. *)
Definition store_result (cb : Callback) (outputs : gmap string Blob)
    (p : PipelineBase) : PipelineBase :=
  set_requestsPool
    (set_completedInferenceResults p
       (emplace (cb_frameID cb)
          (mkInferenceResult (cb_frameID cb) (cb_metaData cb) outputs
             (cb_frameStartTime cb))
          (completedInferenceResults p)).1)
    (setRequestIdle (requestsPool p) (cb_request cb)).

(** Every stored result sits under its own frame id, and both counters are
    values of a non-negative [int64_t]. *)
Definition well_formed (p : PipelineBase) : Prop :=
  0 ≤ inputFrameId p ≤ INT64_MAX
  ∧ 0 ≤ outputFrameId p ≤ INT64_MAX
  ∧ ∀ k r, completedInferenceResults p !! k = Some r → frameId r = k.

(** The invariant of a run with the observations [obs] so far: the frame ids
    in flight are those from [outputFrameId] up to [inputFrameId], each of
    them is in the store or belongs to a started request (while no exception
    is recorded), and the caller has been given the ids below [inputFrameId]
    and the results below [outputFrameId], in order. *)
Definition ordered (p : PipelineBase) (obs : list Observation) : Prop :=
  (0 ≤ outputFrameId p ≤ inputFrameId p)
  ∧ (∀ k r, completedInferenceResults p !! k = Some r →
       frameId r = k ∧ outputsData r ≠ ∅
       ∧ outputFrameId p ≤ k < inputFrameId p)
  ∧ (∀ cb, cb ∈ started p →
       outputFrameId p ≤ cb_frameID cb < inputFrameId p
       ∧ completedInferenceResults p !! cb_frameID cb = None)
  ∧ NoDup (cb_frameID <$> started p)
  ∧ (callbackException p = None →
     ∀ k, outputFrameId p ≤ k < inputFrameId p →
       is_Some (completedInferenceResults p !! k)
       ∨ k ∈ cb_frameID <$> started p)
  ∧ delivered obs = seqZ 0 (outputFrameId p)
  ∧ accepted obs = seqZ 0 (inputFrameId p).

(** ** Definitions of the further properties *)

(** What a request answers for an output name, as the entry of
    [outputsData] it makes. *)
Definition blob_of (answer : Exn + Blob) : option Blob :=
  match answer with
  | inl _ => None
  | inr blob => Some blob
  end.

(** The started requests are distinct requests of a pool of [size]
    requests, and each of them is busy. *)
Definition in_flight (size : nat) (p : PipelineBase) : Prop :=
  length (requestsPool p) = size
  ∧ NoDup (cb_request <$> started p)
  ∧ ∀ cb, cb ∈ started p → requestsPool p !! cb_request cb = Some true.

(** The request [r] is busy and no started request will set it idle. *)
Definition leaked (r : Request) (p : PipelineBase) : Prop :=
  requestsPool p !! r = Some true ∧ r ∉ cb_request <$> started p.

(** The results the caller received: the returns of [getInferenceResult]
    that are not empty, oldest first. *)
Fixpoint received (obs : list Observation) : list InferenceResult :=
  match obs with
  | [] => []
  | Inferred (inr r) :: rest =>
      if IsEmpty r then received rest else r :: received rest
  | _ :: rest => received rest
  end.

(** The submissions [submitImage] accepted in a run with the events [evs]
    and the observations [obs]: the frame id it returned, the time of the
    call and the image. *)
Fixpoint submissions (evs : list Event) (obs : list Observation)
  : list (Z * Z * Image) :=
  match evs, obs with
  | SubmitImage img now :: evs', Submitted (inr id) :: obs' =>
      if id =? -1 then submissions evs' obs'
      else (id, now, img) :: submissions evs' obs'
  | _ :: evs', _ :: obs' => submissions evs' obs'
  | _, _ => []
  end.

(** The frame id [id], the start time [time] and the metadata [md] are
    those of one accepted submission of [subs], with [md] what [preprocess]
    made of its image. *)
Definition traced (subs : list (Z * Z * Image)) (id time : Z) (md : MetaData)
  : Prop :=
  ∃ img request,
    ((id, time, img) ∈ subs) ∧ preprocess img request = inr md.

(** Everything the pipeline holds of a frame comes from an accepted
    submission: the callbacks of the started requests, the stored results
    and the results the caller received. *)
Definition passed_through (evs : list Event) (obs : list Observation)
    (p : PipelineBase) : Prop :=
  0 ≤ inputFrameId p
  ∧ (∀ cb, cb ∈ started p →
       traced (submissions evs obs) (cb_frameID cb) (cb_frameStartTime cb)
         (cb_metaData cb))
  ∧ (∀ k r, completedInferenceResults p !! k = Some r →
       traced (submissions evs obs) (frameId r) (startTime r) (metaData r))
  ∧ (∀ r, r ∈ received obs →
       traced (submissions evs obs) (frameId r) (startTime r) (metaData r)).

(** The frame [k] is in flight, and neither the store nor a started request
    has it: its result cannot arrive any more. *)
Definition stalled (k : Z) (p : PipelineBase) : Prop :=
  completedInferenceResults p !! k = None
  ∧ (k ∉ cb_frameID <$> started p)
  ∧ (outputFrameId p ≤ k < inputFrameId p).

(** ** A [StartAsync] that throws *)

(** [request->StartAsync()] is a call into the backend, and it may throw
    instead of starting the request. [submitRequest] and [submitImage] above
    are the calls in which it returns; the three definitions below are the
    same member functions with the outcome of that call as a parameter:
    [None] when the request is started, [Some e] when the call throws [e].
    The exception leaves [submitRequest] after [inputFrameId] was
    incremented. *)
Definition StartAsync_or_throw (callback : Callback) (outcome : option Exn)
  : Eff unit :=
  match outcome with
  | None => StartAsync callback
  | Some e => throw e
  end.

Definition submitRequest_or_throw (request : Request) (metaData : MetaData)
    (now : Z) (outcome : option Exn) : Eff Z :=
  let frameStartTime := now in
  frameID ← gets inputFrameId;
  let callback := mkCallback frameStartTime frameID request metaData in
  modify (λ p, set_inputFrameId p (wrap64 (inputFrameId p + 1)));;
  modify (λ p, if inputFrameId p <? 0 then set_inputFrameId p 0 else p);;
  StartAsync_or_throw callback outcome;;
  ret frameID.

Definition submitImage_or_throw (img : Image) (now : Z)
    (outcome : option Exn) : Eff Z :=
  request ← acquireIdleRequest;
  match request with
  | None => ret (-1)
  | Some request =>
      md ← lift (preprocess img request);
      submitRequest_or_throw request md now outcome
  end.

(** The calls of a run in which a [StartAsync] may throw: the events of
    above, in which it returns, and a [submitImage] whose [StartAsync]
    throws [e], if the call gets that far. *)
Inductive Call : Type :=
  | Returning (ev : Event)
  | SubmitImageRefused (img : Image) (now : Z) (e : Exn).

Definition step_call (c : Call) (p : PipelineBase)
  : Observation * PipelineBase :=
  match c with
  | Returning ev => step ev p
  | SubmitImageRefused img now e =>
      let '(r, p') := submitImage_or_throw img now (Some e) p in
      (Submitted r, p')
  end.

Fixpoint run_calls (calls : list Call) (p : PipelineBase)
  : list Observation * PipelineBase :=
  match calls with
  | [] => ([], p)
  | c :: rest =>
      let '(o, p1) := step_call c p in
      let '(os, p2) := run_calls rest p1 in
      (o :: os, p2)
  end.

(** [submitImage] gets as far as [StartAsync]: the pool hands out a request
    and [preprocess] returns. *)
Definition reaches_StartAsync (img : Image) (p : PipelineBase) : bool :=
  match (getIdleRequest (requestsPool p)).1 with
  | Some request =>
      match preprocess img request with
      | inr _ => true
      | inl _ => false
      end
  | None => false
  end.

(** The frame id a call loses: the one [submitRequest] took before its
    [StartAsync] threw. *)
Definition lost_by (c : Call) (p : PipelineBase) : list Z :=
  match c with
  | SubmitImageRefused img _ _ =>
      if reaches_StartAsync img p then [inputFrameId p] else []
  | Returning _ => []
  end.

(** The frame ids lost in a run of calls from [p], oldest first. *)
Fixpoint lost_frames (calls : list Call) (p : PipelineBase) : list Z :=
  match calls with
  | [] => []
  | c :: rest => lost_by c p ++ lost_frames rest (step_call c p).2
  end.

(** The invariant of a run of calls that lost the frame ids [lost]: a
    frame id in flight is in the store, or the frame of a started request,
    or lost, and a lost frame id stays in flight. *)
Definition accounted (lost : list Z) (p : PipelineBase) : Prop :=
  (0 ≤ outputFrameId p ≤ inputFrameId p)
  ∧ (∀ k r, completedInferenceResults p !! k = Some r →
       frameId r = k ∧ outputsData r ≠ ∅
       ∧ outputFrameId p ≤ k < inputFrameId p)
  ∧ (∀ cb, cb ∈ started p →
       outputFrameId p ≤ cb_frameID cb < inputFrameId p
       ∧ completedInferenceResults p !! cb_frameID cb = None)
  ∧ NoDup (cb_frameID <$> started p)
  ∧ (∀ k, k ∈ lost →
       outputFrameId p ≤ k < inputFrameId p
       ∧ completedInferenceResults p !! k = None
       ∧ (k ∉ cb_frameID <$> started p))
  ∧ (callbackException p = None →
     ∀ k, outputFrameId p ≤ k < inputFrameId p →
       is_Some (completedInferenceResults p !! k)
       ∨ (k ∈ cb_frameID <$> started p)
       ∨ k ∈ lost).

End Model.

(** ** A concrete pipeline *)

(** A model with one output, blobs and metadata that are numbers, and
    exceptions that are their messages. [IsEmpty] tells whether the result
    has no output. *)
Module Scenario.

Definition decl : @ResultDecl nat nat :=
  {| InferenceResult_new := mkInferenceResult (-1) 0%nat ∅ 0;
     IsEmpty := λ r, bool_decide (outputsData r = ∅) |}.

Definition model : @ModelBase nat nat string nat nat :=
  {| getOutputsNames := ["detection_out"%string];
     preprocess := λ img _, inr img;
     postprocess := λ r, inr (size (outputsData r)) |}.

(** A request that answers every output name with the blob [blob]. *)
Definition answers (blob : nat) : string → string + nat := λ _, inr blob.

(** A request whose [GetBlob] throws [msg]. *)
Definition fails_with (msg : string) : string → string + nat := λ _, inl msg.

Definition fails : string → string + nat := fails_with "GetBlob failed".

(** The callback of the first submission of the runs below. *)
Definition first_callback : @Callback nat := mkCallback 10 0 0%nat 1%nat.

(** Two submissions that take both requests of the pool and a third one
    that is rejected; the second request completes first. *)
Definition out_of_order : list (@Event nat string nat) :=
  [SubmitImage 1%nat 10; SubmitImage 2%nat 11; SubmitImage 3%nat 12;
   Completion 1 (answers 7) None; GetInferenceResult; WaitForData;
   Completion 0 (answers 8) None; GetInferenceResult].

(** Two submissions; the second request completes first and its extraction
    fails, then the first one completes with its outputs. *)
Definition failure_then_result : list (@Event nat string nat) :=
  [SubmitImage 1%nat 10; SubmitImage 2%nat 11;
   Completion 1 fails None; Completion 0 (answers 7) None].

(** One submission to a pool of one request. *)
Definition one_submission : list (@Event nat string nat) :=
  [SubmitImage 1%nat 10].

(** A model whose [preprocess] throws for the image 0. *)
Definition strict_model : @ModelBase nat nat string nat nat :=
  {| getOutputsNames := ["detection_out"%string];
     preprocess := λ img _,
       if (img =? 0)%nat then inl "empty image"%string else inr img;
     postprocess := λ r, inr (size (outputsData r)) |}.

(** A model that declares no output: the results of its callbacks have no
    output, and [IsEmpty] finds them empty. *)
Definition silent_model : @ModelBase nat nat string nat nat :=
  {| getOutputsNames := [];
     preprocess := λ img _, inr img;
     postprocess := λ r, inr (size (outputsData r)) |}.

(** The result the callback of the first submission stores when the request
    answers with the blob [blob]. *)
Definition first_result (blob : nat) : @InferenceResult nat nat :=
  mkInferenceResult 0 1%nat {["detection_out"%string := blob]} 10.

(** One submission, completed with its outputs. *)
Definition one_completed : list (@Event nat string nat) :=
  [SubmitImage 1%nat 10; Completion 0 (answers 7) None].

(** A pool of one request: the first frame is completed and not retrieved
    when the second one is submitted. *)
Definition result_ready_pool_busy : list (@Event nat string nat) :=
  [SubmitImage 1%nat 10; Completion 0 (answers 7) None;
   SubmitImage 2%nat 11].

(** A pool of three requests; the [StartAsync] of the second submission
    throws, the first and the third frame complete and are retrieved as far
    as they can be. *)
Definition second_start_refused : list (@Call nat string nat) :=
  [Returning (SubmitImage 1%nat 10);
   SubmitImageRefused 2%nat 11 "device lost"%string;
   Returning (SubmitImage 3%nat 12);
   Returning (Completion 1 (answers 9) None);
   Returning (Completion 0 (answers 7) None);
   Returning GetInferenceResult;
   Returning GetInferenceResult].

End Scenario.

(** * Properties *)

Section Properties.

Context {Blob MetaData Exn Image Payload : Type}.
Context `{!@ResultDecl Blob MetaData}.
Context `{!@ModelBase Blob MetaData Exn Image Payload}.

#[local] Abbreviation InferenceResult := (@InferenceResult Blob MetaData).
#[local] Abbreviation Callback := (@Callback MetaData).
#[local] Abbreviation PipelineBase := (@PipelineBase Blob MetaData Exn).
#[local] Abbreviation PipelineBase_new := (@PipelineBase_new Blob MetaData Exn).
#[local] Abbreviation Event := (@Event Blob Exn Image).
#[local] Abbreviation Observation := (@Observation Blob MetaData Exn).

Ltac eff :=
  unfold mbind, mret, Eff_bind, Eff_ret, StartAsync, acquireIdleRequest,
    onProcessingCompleted, bind, ret, throw, gets, modify, lift, try_catch;
  simpl.

Ltac split_ordered :=
  refine (conj _ (conj _ (conj _ (conj _ (conj _ (conj _ _)))))).


(** ** The pool *)

Lemma find_idle_None (pool : list bool) (i : nat) :
  find_idle i pool = None ↔ isIdleRequestAvailable pool = false.
Proof.
  revert i. induction pool as [|busy rest IH]; intros i; simpl; [done|].
  destruct busy; simpl; [apply IH | split; discriminate].
Qed.

Lemma find_idle_Some (pool : list bool) (i : nat) (r : Request) :
  find_idle i pool = Some r → (i ≤ r)%nat ∧ pool !! (r - i)%nat = Some false.
Proof.
  revert i. induction pool as [|busy rest IH]; intros i; simpl; [done|].
  destruct busy.
  - intros Hf. destruct (IH _ Hf) as [Hle Hl]. split; [lia|].
    replace (r - i)%nat with (S (r - S i)) by lia. done.
  - intros [= <-]. split; [lia|]. by rewrite Nat.sub_diag.
Qed.

Lemma getIdleRequest_exhausted (pool : list bool) :
  isIdleRequestAvailable pool = false → getIdleRequest pool = (None, pool).
Proof.
  intros Hn. unfold getIdleRequest.
  by rewrite (proj2 (find_idle_None pool 0%nat) Hn).
Qed.

Lemma getIdleRequest_available (pool : list bool) :
  isIdleRequestAvailable pool = true →
  ∃ r, getIdleRequest pool = (Some r, <[r := true]> pool)
       ∧ pool !! r = Some false.
Proof.
  intros Ha. unfold getIdleRequest.
  destruct (find_idle 0 pool) as [r|] eqn:Hf.
  - exists r. split; [done|].
    destruct (find_idle_Some _ _ _ Hf) as [_ Hl].
    by rewrite Nat.sub_0_r in Hl.
  - apply find_idle_None in Hf. congruence.
Qed.

(** ** Equations of the member functions *)

Lemma set_requestsPool_same (p : PipelineBase) :
  set_requestsPool p (requestsPool p) = p.
Proof. by destruct p. Qed.

Lemma completionCallback_extraction_failed cb GetBlob hook e (p : PipelineBase) :
  extractOutputs GetBlob getOutputsNames ∅ = inl e →
  completionCallback cb GetBlob hook p = (inr (), record_exception e p).
Proof.
  intros He. unfold completionCallback, record_exception. eff. rewrite He. simpl.
  by destruct (callbackException p).
Qed.

Lemma completionCallback_stored cb GetBlob outputs (p : PipelineBase) :
  extractOutputs GetBlob getOutputsNames ∅ = inr outputs →
  completionCallback cb GetBlob None p = (inr (), store_result cb outputs p).
Proof.
  intros He. unfold completionCallback, store_result. eff. by rewrite He.
Qed.

Lemma completionCallback_hook_failed cb GetBlob outputs e (p : PipelineBase) :
  extractOutputs GetBlob getOutputsNames ∅ = inr outputs →
  completionCallback cb GetBlob (Some e) p
  = (inr (), record_exception e (store_result cb outputs p)).
Proof.
  intros He. unfold completionCallback, store_result, record_exception. eff.
  rewrite He. simpl. by destruct (callbackException p).
Qed.

Lemma getInferenceResult_absent (p : PipelineBase) :
  IsEmpty InferenceResult_new = true →
  completedInferenceResults p !! outputFrameId p = None →
  getInferenceResult p = (inr InferenceResult_new, p).
Proof.
  intros Hnew Hnone. unfold getInferenceResult. eff. rewrite Hnone. simpl.
  by rewrite Hnew.
Qed.

Lemma getInferenceResult_present (p : PipelineBase) (r : InferenceResult) :
  completedInferenceResults p !! outputFrameId p = Some r →
  IsEmpty r = false →
  getInferenceResult p
  = (inr r,
     mkPipelineBase (requestsPool p)
       (delete (outputFrameId p) (completedInferenceResults p))
       (perfMetrics p ++ [startTime r]) (inputFrameId p)
       (next_id (frameId r)) (callbackException p) (started p)).
Proof.
  intros Hsome Hne. unfold getInferenceResult, next_id. eff. rewrite Hsome.
  simpl. rewrite Hne. simpl. by destruct (wrap64 (frameId r + 1) <? 0).
Qed.

Lemma getInferenceResult_present_empty (p : PipelineBase) (r : InferenceResult) :
  completedInferenceResults p !! outputFrameId p = Some r →
  IsEmpty r = true →
  getInferenceResult p
  = (inr r,
     set_completedInferenceResults p
       (delete (outputFrameId p) (completedInferenceResults p))).
Proof.
  intros Hsome Hne. unfold getInferenceResult. eff. rewrite Hsome.
  simpl. by rewrite Hne.
Qed.

Lemma submitRequest_eq request md now (p : PipelineBase) :
  submitRequest request md now p
  = (inr (inputFrameId p),
     mkPipelineBase (requestsPool p) (completedInferenceResults p)
       (perfMetrics p) (next_id (inputFrameId p)) (outputFrameId p)
       (callbackException p)
       (started p ++ [mkCallback now (inputFrameId p) request md])).
Proof.
  unfold submitRequest, next_id. eff.
  by destruct (wrap64 (inputFrameId p + 1) <? 0).
Qed.

Lemma submitImage_rejected img now (p : PipelineBase) :
  isIdleRequestAvailable (requestsPool p) = false →
  submitImage img now p = (inr (-1), p).
Proof.
  intros Hn. unfold submitImage. eff.
  rewrite (getIdleRequest_exhausted _ Hn). simpl.
  by rewrite set_requestsPool_same.
Qed.

Lemma submitImage_acquired img now (p : PipelineBase) :
  isIdleRequestAvailable (requestsPool p) = true →
  ∃ r, requestsPool p !! r = Some false ∧
    submitImage img now p
    = match preprocess img r with
      | inl e => (inl e, set_requestsPool p (<[r := true]> (requestsPool p)))
      | inr md =>
          submitRequest r md now
            (set_requestsPool p (<[r := true]> (requestsPool p)))
      end.
Proof.
  intros Ha. destruct (getIdleRequest_available _ Ha) as (r & Hg & Hl).
  exists r. split; [done|]. unfold submitImage. eff. rewrite Hg. simpl.
  by destruct (preprocess img r).
Qed.

(** ** Runs *)

Lemma run_cons ev evs (p : PipelineBase) :
  run (ev :: evs) p
  = ((step ev p).1 :: (run evs (step ev p).2).1, (run evs (step ev p).2).2).
Proof.
  simpl. destruct (step ev p) as [o p1]. simpl.
  by destruct (run evs p1) as [os p2].
Qed.

Lemma run_length evs (p : PipelineBase) : length (run evs p).1 = length evs.
Proof.
  revert p. induction evs as [|ev evs IH]; intros p; [done|].
  rewrite run_cons. simpl. by rewrite IH.
Qed.

(** A property of the pipeline that every step keeps holds after a run. *)
Lemma run_invariant (P : PipelineBase → Prop) :
  (∀ ev p, P p → P (step ev p).2) →
  ∀ evs p, P p → P (run evs p).2.
Proof.
  intros Hstep evs. induction evs as [|ev evs IH]; intros p HP; [done|].
  rewrite run_cons. simpl. apply IH, Hstep, HP.
Qed.

(** ** [waitForData] *)

Lemma waitForData_raises (p : PipelineBase) (e : Exn) :
  callbackException p = Some e → waitForData p = Some (inl e).
Proof.
  intros He. unfold waitForData, waitForData_ready. by rewrite He.
Qed.

(** C3. [waitForData] leaves its wait exactly when an exception is recorded,
    or a request of the pool is idle, or the store holds the result of
    [outputFrameId]; and with an exception [e] recorded it leaves by
    rethrowing [e], while with none recorded it never throws. *)
Theorem waitForData_returns_iff (p : PipelineBase) :
  (is_Some (waitForData p) ↔
     is_Some (callbackException p)
     ∨ isIdleRequestAvailable (requestsPool p) = true
     ∨ is_Some (completedInferenceResults p !! outputFrameId p))
  ∧ (∀ e, callbackException p = Some e ↔ waitForData p = Some (inl e)).
Proof.
  unfold waitForData, waitForData_ready. split.
  - destruct (callbackException p) as [e|] eqn:He; simpl.
    + split; [|done]. intros _. left. done.
    + destruct (isIdleRequestAvailable (requestsPool p)); simpl.
      { split; [|done]. intros _. right. by left. }
      destruct (completedInferenceResults p !! outputFrameId p) as [r|];
        simpl.
      * split; [|done]. intros _. right. right. done.
      * split; [by intros [? ?]|].
        intros [[? ?]|[?|[? ?]]]; done.
  - intros e. destruct (callbackException p) as [e0|] eqn:He; simpl.
    + split; congruence.
    + split; [done|]. by repeat case_match.
Qed.

(** ** Submission without an idle request *)

(** C4. When the pool has no idle request, [submitImage] returns -1 at once
    and leaves every member of the pipeline as it was: no frame id is
    assigned, [inputFrameId] keeps its value and no request is started. *)
Theorem submitImage_rejects_and_keeps_state img now (p : PipelineBase) :
  isIdleRequestAvailable (requestsPool p) = false →
  submitImage img now p = (inr (-1), p).
Proof. apply submitImage_rejected. Qed.

(** ** The exception a callback records *)

(** C5. When the extraction of the outputs fails with [e], the callback
    stores [e] in [callbackException] only if no exception is recorded; an
    exception recorded before stays and [e] is dropped. Nothing else of the
    pipeline changes. *)
Theorem first_failure_wins cb GetBlob hook e (p : PipelineBase) :
  extractOutputs GetBlob getOutputsNames ∅ = inl e →
  (completionCallback cb GetBlob hook p).2
  = set_callbackException p (Some (default e (callbackException p))).
Proof.
  intros He. rewrite (completionCallback_extraction_failed _ _ _ _ _ He).
  simpl. unfold record_exception.
  destruct p as [pool store perf inId outId [e0|] st]; done.
Qed.

(** ** A second completion for the same frame *)

(** C7, as the code has it. When the store already holds a result for the
    frame id of the callback, [emplace] inserts nothing and its answer is not
    looked at: the stored result stays, the new one is dropped, no exception
    is recorded, and the callback goes on to set the request idle. *)
Theorem duplicate_completion_is_ignored cb GetBlob outputs r0
    (p : PipelineBase) :
  completedInferenceResults p !! cb_frameID cb = Some r0 →
  extractOutputs GetBlob getOutputsNames ∅ = inr outputs →
  (completionCallback cb GetBlob None p).2
  = set_requestsPool p (setRequestIdle (requestsPool p) (cb_request cb)).
Proof.
  intros Hdup He. rewrite (completionCallback_stored _ _ _ _ He). simpl.
  unfold store_result, emplace. rewrite Hdup. simpl. by destruct p.
Qed.

(** ** The request of a completed callback *)

(** C8, as the code has it. A callback whose extraction of the outputs
    succeeds sets its request idle inside the critical section, also when the
    hook that follows throws; a callback whose extraction fails leaves the
    pool as it was. *)
Theorem callback_releases_request_after_extraction cb GetBlob hook
    (p : PipelineBase) :
  (cb_request cb < length (requestsPool p))%nat →
  match extractOutputs GetBlob getOutputsNames ∅ with
  | inr _ =>
      requestsPool (completionCallback cb GetBlob hook p).2 !! cb_request cb
      = Some false
  | inl _ =>
      requestsPool (completionCallback cb GetBlob hook p).2 = requestsPool p
  end.
Proof.
  intros Hlt. destruct (extractOutputs GetBlob getOutputsNames ∅) as [e|outs]
    eqn:He.
  - rewrite (completionCallback_extraction_failed _ _ _ _ _ He). simpl.
    unfold record_exception. by destruct (callbackException p).
  - assert (Hidle : requestsPool (store_result cb outs p) !! cb_request cb
                    = Some false).
    { simpl. unfold setRequestIdle. by apply list_lookup_insert_eq. }
    destruct hook as [e|].
    + rewrite (completionCallback_hook_failed _ _ _ _ _ He). simpl.
      unfold record_exception.
      by destruct (callbackException (store_result cb outs p)).
    + by rewrite (completionCallback_stored _ _ _ _ He).
Qed.

(** ** Retrieval with no result ready *)

Lemma getResult_state (p : PipelineBase) :
  (getResult p).2 = (getInferenceResult p).2.
Proof.
  unfold getResult. eff. destruct (getInferenceResult p) as [[e|r] p']; [done|].
  simpl. destruct (IsEmpty r); [done|]. by destruct (postprocess r).
Qed.

(** C10. When the store has no result for [outputFrameId],
    [getInferenceResult] returns the default-constructed (empty) result and
    [getResult] the null pointer, and the pipeline is left as it was:
    [outputFrameId], the store and the performance metrics included. *)
Theorem getInferenceResult_absent_keeps_state (p : PipelineBase) :
  IsEmpty InferenceResult_new = true →
  completedInferenceResults p !! outputFrameId p = None →
  getInferenceResult p = (inr InferenceResult_new, p)
  ∧ getResult p = (inr None, p).
Proof.
  intros Hnew Hnone.
  pose proof (getInferenceResult_absent p Hnew Hnone) as Hget.
  split; [done|]. unfold getResult. eff. rewrite Hget. simpl. by rewrite Hnew.
Qed.

(** ** The frame counters *)

Lemma wrap64_range (z : Z) : - 2 ^ 63 ≤ wrap64 z ≤ INT64_MAX.
Proof.
  unfold wrap64, INT64_MAX.
  pose proof (Z.mod_pos_bound (z + 2 ^ 63) (2 ^ 64)). lia.
Qed.

Lemma next_id_range (id : Z) : 0 ≤ next_id id ≤ INT64_MAX.
Proof.
  unfold next_id. pose proof (wrap64_range (id + 1)).
  destruct (Z.ltb_spec (wrap64 (id + 1)) 0); unfold INT64_MAX in *; lia.
Qed.

Lemma next_id_spec (id : Z) :
  0 ≤ id ≤ INT64_MAX →
  next_id id = if id =? INT64_MAX then 0 else id + 1.
Proof.
  unfold next_id, wrap64, INT64_MAX. intros Hid.
  destruct (Z.eqb_spec id (2 ^ 63 - 1)) as [->|Hne].
  - reflexivity.
  - replace ((id + 1 + 2 ^ 63) `mod` 2 ^ 64) with (id + 1 + 2 ^ 63)
      by (symmetry; apply Z.mod_small; lia).
    destruct (Z.ltb_spec (id + 1 + 2 ^ 63 - 2 ^ 63) 0); lia.
Qed.

Lemma well_formed_new size : well_formed (PipelineBase_new size).
Proof. unfold well_formed, INT64_MAX. simpl. repeat split; try lia. done. Qed.

Lemma emplace_lookup `{Countable K} {V} (k k' : K) (v : V) (m : gmap K V) :
  (emplace k v m).1 !! k'
  = match m !! k' with
    | Some v' => Some v'
    | None => if decide (k = k') then Some v else None
    end.
Proof.
  unfold emplace. destruct (m !! k) as [v0|] eqn:Hk; simpl.
  - destruct (m !! k') as [v'|] eqn:Hk'; [done|].
    case_decide; [congruence|done].
  - rewrite lookup_insert. case_decide as Hd.
    + subst. by rewrite Hk.
    + by destruct (m !! k').
Qed.

(** What a callback may change: the store, by an [emplace] under its frame
    id, the pool and the recorded exception. *)
Lemma completionCallback_cases cb GetBlob hook (p : PipelineBase) :
  let p' := (completionCallback cb GetBlob hook p).2 in
  inputFrameId p' = inputFrameId p
  ∧ outputFrameId p' = outputFrameId p
  ∧ started p' = started p
  ∧ perfMetrics p' = perfMetrics p
  ∧ (completedInferenceResults p' = completedInferenceResults p
     ∨ ∃ outputs,
         extractOutputs GetBlob getOutputsNames ∅ = inr outputs
         ∧ completedInferenceResults p'
           = (emplace (cb_frameID cb)
                (mkInferenceResult (cb_frameID cb) (cb_metaData cb) outputs
                   (cb_frameStartTime cb))
                (completedInferenceResults p)).1).
Proof.
  destruct (extractOutputs GetBlob getOutputsNames ∅) as [e|outs] eqn:He.
  - rewrite (completionCallback_extraction_failed _ _ _ _ _ He). simpl.
    unfold record_exception. destruct (callbackException p); simpl; auto 10.
  - destruct hook as [e|].
    + rewrite (completionCallback_hook_failed _ _ _ _ _ He). simpl.
      unfold record_exception.
      destruct (callbackException (store_result cb outs p)); simpl;
        repeat split; try done; right; by exists outs.
    + rewrite (completionCallback_stored _ _ _ _ He). simpl.
      repeat split; try done; right; by exists outs.
Qed.

(** What [getInferenceResult] may change: it never throws, and it takes the
    result of [outputFrameId] out of the store, if there is one. *)
Lemma getInferenceResult_cases (p : PipelineBase) :
  ∃ r p', getInferenceResult p = (inr r, p')
    ∧ requestsPool p' = requestsPool p
    ∧ inputFrameId p' = inputFrameId p
    ∧ callbackException p' = callbackException p
    ∧ started p' = started p
    ∧ completedInferenceResults p'
      = delete (outputFrameId p) (completedInferenceResults p)
    ∧ (outputFrameId p' = outputFrameId p
       ∨ outputFrameId p' = next_id (frameId r)
         ∧ (completedInferenceResults p !! outputFrameId p = Some r
            ∨ completedInferenceResults p !! outputFrameId p = None
              ∧ r = InferenceResult_new)).
Proof.
  destruct (completedInferenceResults p !! outputFrameId p) as [r|] eqn:Hl.
  - exists r. destruct (IsEmpty r) eqn:Hr.
    + rewrite (getInferenceResult_present_empty _ _ Hl Hr).
      eexists; split; [done|]. simpl. auto 10.
    + rewrite (getInferenceResult_present _ _ Hl Hr).
      eexists; split; [done|]. simpl. auto 10.
  - exists InferenceResult_new. unfold getInferenceResult. eff. rewrite Hl.
    simpl. destruct (IsEmpty InferenceResult_new); simpl.
    + eexists; split; [done|]. simpl. rewrite delete_id by done. auto 10.
    + eexists; split; [done|]. simpl. rewrite delete_id by done.
      unfold next_id.
      destruct (wrap64 (frameId InferenceResult_new + 1) <? 0); simpl;
        auto 10.
Qed.

(** The three ways [submitImage] ends: rejected, failed in [preprocess] with
    the request already taken, or submitted. *)
Lemma submitImage_cases img now (p : PipelineBase) :
  (isIdleRequestAvailable (requestsPool p) = false
   ∧ submitImage img now p = (inr (-1), p))
  ∨ (isIdleRequestAvailable (requestsPool p) = true
     ∧ ∃ r, requestsPool p !! r = Some false
       ∧ ((∃ e, preprocess img r = inl e
             ∧ submitImage img now p
               = (inl e, set_requestsPool p (<[r := true]> (requestsPool p))))
          ∨ (∃ md, preprocess img r = inr md
               ∧ submitImage img now p
                 = (inr (inputFrameId p),
                    mkPipelineBase (<[r := true]> (requestsPool p))
                      (completedInferenceResults p) (perfMetrics p)
                      (next_id (inputFrameId p)) (outputFrameId p)
                      (callbackException p)
                      (started p ++ [mkCallback now (inputFrameId p) r md]))))).
Proof.
  destruct (isIdleRequestAvailable (requestsPool p)) eqn:Ha.
  - right. split; [done|].
    destruct (submitImage_acquired img now p Ha) as (r & Hl & Hs).
    exists r. split; [done|]. rewrite Hs.
    destruct (preprocess img r) as [e|md].
    + left. by exists e.
    + right. exists md. split; [done|]. by rewrite submitRequest_eq.
  - left. split; [done|]. by apply submitImage_rejected.
Qed.

Lemma well_formed_step ev (p : PipelineBase) :
  well_formed p → well_formed (step ev p).2.
Proof.
  intros (Hin & Hout & Hstore). destruct ev as [img now|i GetBlob hook| |].
  - simpl.
    destruct (submitImage_cases img now p)
      as [[_ ->]|(_ & r & _ & [(e & _ & ->)|(md & _ & ->)])]; simpl.
    + done.
    + done.
    + split; [apply next_id_range|done].
  - simpl. destruct (started p !! i) as [cb|]; simpl; [|done].
    pose proof (completionCallback_cases cb GetBlob hook
                  (set_started p (delete i (started p))))
      as (Hi & Ho & _ & _ & Hs).
    simpl in *. unfold well_formed. rewrite Hi, Ho.
    split; [done|]. split; [done|]. intros k r.
    destruct Hs as [->|(outs & _ & ->)]; [apply Hstore|].
    rewrite emplace_lookup.
    destruct (completedInferenceResults p !! k) as [r'|] eqn:Hk.
    + intros [= <-]. by apply Hstore.
    + case_decide; [|done]. by intros [= <-].
  - simpl. destruct (getInferenceResult_cases p)
      as (r & p' & -> & _ & Hi & _ & _ & Hs & Ho).
    simpl. unfold well_formed. rewrite Hi, Hs.
    split; [done|]. split.
    + destruct Ho as [->|[-> _]]; [done|apply next_id_range].
    + intros k r'. rewrite lookup_delete. case_decide; [done|apply Hstore].
  - done.
Qed.

Lemma well_formed_run size evs :
  well_formed (run evs (PipelineBase_new size)).2.
Proof.
  apply (run_invariant well_formed); [apply well_formed_step|].
  apply well_formed_new.
Qed.

(** C6. In every pipeline a run leads to, both counters are non-negative; a
    submission leaves [inputFrameId] one higher, or at 0 when the increment
    would leave the non-negative range of [int64_t]; and a retrieval that
    returns a result moves [outputFrameId] by the same rule. *)
Theorem frame_counters_wrap_to_zero (size : nat) (evs : list Event) :
  let p := (run evs (PipelineBase_new size)).2 in
  (0 ≤ inputFrameId p ∧ 0 ≤ outputFrameId p)
  ∧ (∀ request md now,
       inputFrameId (submitRequest request md now p).2
       = if inputFrameId p =? INT64_MAX then 0 else inputFrameId p + 1)
  ∧ (∀ r, (getInferenceResult p).1 = inr r → IsEmpty r = false →
       is_Some (completedInferenceResults p !! outputFrameId p) →
       outputFrameId (getInferenceResult p).2
       = if outputFrameId p =? INT64_MAX then 0 else outputFrameId p + 1).
Proof.
  intros p. destruct (well_formed_run size evs) as (Hin & Hout & Hstore).
  fold p in Hin, Hout, Hstore. split; [lia|]. split.
  - intros request md now. rewrite submitRequest_eq. simpl.
    by apply next_id_spec.
  - intros r Hr Hne [r' Hl].
    assert (Hne' : IsEmpty r' = false).
    { destruct (IsEmpty r') eqn:He; [|done].
      rewrite (getInferenceResult_present_empty _ _ Hl He) in Hr.
      simpl in Hr. congruence. }
    rewrite (getInferenceResult_present _ _ Hl Hne'). simpl.
    rewrite (Hstore _ _ Hl). by apply next_id_spec.
Qed.

(** C9. In every pipeline a run leads to, [submitImage] returns -1 exactly
    when the pool has no idle request, and otherwise the frame id it returns
    is the non-negative [inputFrameId]. *)
Theorem rejection_sentinel_is_unambiguous (size : nat) (evs : list Event)
    img now (id : Z) :
  let p := (run evs (PipelineBase_new size)).2 in
  (submitImage img now p).1 = inr id →
  (id = -1 ↔ isIdleRequestAvailable (requestsPool p) = false)
  ∧ (isIdleRequestAvailable (requestsPool p) = true →
     0 ≤ id ∧ id = inputFrameId p).
Proof.
  intros p Hid. destruct (well_formed_run size evs) as (Hin & _ & _).
  fold p in Hin.
  destruct (submitImage_cases img now p)
    as [[Hn Hs]|(Ha & r & _ & [(e & _ & Hs)|(md & _ & Hs)])];
    rewrite Hs in Hid; simpl in Hid.
  - injection Hid as <-. split; [done|]. congruence.
  - done.
  - injection Hid as <-. split; [|intros _; lia].
    split; [lia|congruence].
Qed.

(** ** Delivery in the order of submission *)

Lemma delivered_app (obs1 obs2 : list Observation) :
  delivered (obs1 ++ obs2) = delivered obs1 ++ delivered obs2.
Proof.
  induction obs1 as [|o obs1 IH]; [done|]. simpl.
  destruct o as [| |[e|r]|]; try done. destruct (IsEmpty r); [done|].
  simpl. by rewrite IH.
Qed.

Lemma accepted_app (obs1 obs2 : list Observation) :
  accepted (obs1 ++ obs2) = accepted obs1 ++ accepted obs2.
Proof.
  induction obs1 as [|o obs1 IH]; [done|]. simpl.
  destruct o as [[e|id]| | |]; try done. destruct (id =? -1); [done|].
  simpl. by rewrite IH.
Qed.

Lemma accepted_length (obs : list Observation) :
  (length (accepted obs) ≤ length obs)%nat.
Proof.
  induction obs as [|o obs IH]; [done|]. simpl.
  destruct o as [[e|id]| | |]; simpl; try lia. destruct (id =? -1); simpl; lia.
Qed.

Lemma seqZ_snoc (n : Z) : 0 ≤ n → seqZ 0 (n + 1) = seqZ 0 n ++ [n].
Proof. intros Hn. rewrite seqZ_app by lia. done. Qed.

Lemma ordered_new size : ordered (PipelineBase_new size) [].
Proof.
  unfold ordered. simpl. split_and!; try done.
  - intros cb Hcb. by apply elem_of_nil in Hcb.
  - constructor.
  - intros _ k Hk. lia.
Qed.

Lemma ordered_input_bound (p : PipelineBase) obs :
  ordered p obs → inputFrameId p ≤ Z.of_nat (length obs).
Proof.
  intros (Hc & _ & _ & _ & _ & _ & Hacc).
  pose proof (accepted_length obs) as Hlen.
  rewrite Hacc, length_seqZ in Hlen. lia.
Qed.

Lemma emplace_nonempty `{Countable K} {V} (k : K) (v : V) (m : gmap K V) :
  (emplace k v m).1 ≠ ∅.
Proof.
  intros Hempty. pose proof (emplace_lookup k k v m) as Hl.
  rewrite Hempty, lookup_empty in Hl.
  destruct (m !! k); [done|]. by case_decide.
Qed.

Lemma extractOutputs_nonempty (GetBlob : string → Exn + Blob) names
    (acc outputs : gmap string Blob) :
  names ≠ [] ∨ acc ≠ ∅ →
  extractOutputs GetBlob names acc = inr outputs → outputs ≠ ∅.
Proof.
  revert acc. induction names as [|outName rest IH]; intros acc Hne; simpl.
  - intros [= <-]. by destruct Hne.
  - destruct (GetBlob outName) as [e|blob]; [done|].
    apply IH. right. apply emplace_nonempty.
Qed.

Section Ordering.

(** The default-constructed result is empty, and a result with a frame id
    and at least one output is not; the model has at least one output. *)
Hypothesis IsEmpty_new : IsEmpty InferenceResult_new = true.
Hypothesis IsEmpty_filled :
  ∀ r : InferenceResult, 0 ≤ frameId r → outputsData r ≠ ∅ → IsEmpty r = false.
Hypothesis outputs_declared : getOutputsNames ≠ [].

Lemma ordered_submit img now (p : PipelineBase) obs :
  ordered p obs → inputFrameId p < INT64_MAX →
  ordered (step (SubmitImage img now) p).2
    (obs ++ [(step (SubmitImage img now) p).1]).
Proof.
  intros (Hc & Hstore & Hst & Hnd & Hall & Hdel & Hacc) Hmax. simpl.
  rewrite (surjective_pairing (submitImage img now p)). simpl.
  destruct (submitImage_cases img now p)
    as [[_ ->]|(_ & r & _ & [(e & _ & ->)|(md & _ & ->)])]; simpl;
    unfold ordered; rewrite delivered_app, accepted_app; simpl;
    rewrite ?app_nil_r.
  - done.
  - done.
  - assert (Hnext : next_id (inputFrameId p) = inputFrameId p + 1).
    { rewrite next_id_spec by lia.
      destruct (Z.eqb_spec (inputFrameId p) INT64_MAX); lia. }
    rewrite Hnext.
    assert (Hfresh : completedInferenceResults p !! inputFrameId p = None).
    { destruct (completedInferenceResults p !! inputFrameId p) as [r0|] eqn:E;
        [|done]. apply Hstore in E. lia. }
    split_ordered.
    + lia.
    + intros k r0 Hk. apply Hstore in Hk. split_and!; try apply Hk. lia.
    + intros cb [Hcb| ->%list_elem_of_singleton]%elem_of_app.
      * apply Hst in Hcb. split; [lia|apply Hcb].
      * simpl. split; [lia|done].
    + rewrite fmap_app. simpl. apply NoDup_app. split; [done|]. split.
      * intros k (cb & -> & Hcb)%list_elem_of_fmap Hin.
        apply list_elem_of_singleton in Hin. apply Hst in Hcb. lia.
      * apply NoDup_singleton.
    + intros Hexc k Hk. rewrite fmap_app. simpl.
      destruct (decide (k = inputFrameId p)) as [->|Hne].
      * right. apply elem_of_app. right. by apply list_elem_of_singleton.
      * destruct (Hall Hexc k) as [?|?]; [lia|by left|].
        right. apply elem_of_app. by left.
    + done.
    + destruct (Z.eqb_spec (inputFrameId p) (-1)); [lia|].
      rewrite Hacc. symmetry. apply seqZ_snoc. lia.
Qed.

Lemma ordered_consume (p : PipelineBase) obs :
  ordered p obs → inputFrameId p ≤ INT64_MAX →
  ordered (step GetInferenceResult p).2
    (obs ++ [(step GetInferenceResult p).1]).
Proof.
  intros (Hc & Hstore & Hst & Hnd & Hall & Hdel & Hacc) Hmax. simpl.
  rewrite (surjective_pairing (getInferenceResult p)). simpl.
  destruct (completedInferenceResults p !! outputFrameId p) as [r|] eqn:Hl.
  - destruct (Hstore _ _ Hl) as (Hid & Hout & Hrange).
    assert (Hr : IsEmpty r = false) by (apply IsEmpty_filled; [lia|done]).
    rewrite (getInferenceResult_present _ _ Hl Hr). simpl.
    assert (Hnext : next_id (frameId r) = outputFrameId p + 1).
    { rewrite Hid, next_id_spec by lia.
      destruct (Z.eqb_spec (outputFrameId p) INT64_MAX); lia. }
    rewrite Hnext. unfold ordered. rewrite delivered_app, accepted_app. simpl.
    rewrite Hr, app_nil_r. simpl. split_ordered.
    + lia.
    + intros k r0. rewrite lookup_delete. case_decide as Hk; [done|].
      intros Hk0. apply Hstore in Hk0. split_and!; try apply Hk0. lia.
    + intros cb Hcb. apply Hst in Hcb as [Hcb1 Hcb2].
      assert (cb_frameID cb ≠ outputFrameId p) by congruence.
      split; [lia|]. rewrite lookup_delete. by case_decide.
    + done.
    + intros Hexc k Hk. destruct (Hall Hexc k) as [Hs|Hs]; [lia| |by right].
      left. rewrite lookup_delete. case_decide; [lia|done].
    + rewrite Hdel, Hid. symmetry. apply seqZ_snoc. lia.
    + done.
  - rewrite (getInferenceResult_absent _ IsEmpty_new Hl). simpl.
    unfold ordered. rewrite delivered_app, accepted_app. simpl.
    rewrite IsEmpty_new, !app_nil_r. done.
Qed.

Lemma started_without (l : list Callback) (i : nat) (cb : Callback) :
  NoDup (cb_frameID <$> l) → l !! i = Some cb →
  (∀ cb', cb' ∈ delete i l → cb' ∈ l ∧ cb_frameID cb' ≠ cb_frameID cb)
  ∧ NoDup (cb_frameID <$> delete i l)
  ∧ (∀ k, k ∈ cb_frameID <$> l →
       k = cb_frameID cb ∨ k ∈ cb_frameID <$> delete i l).
Proof.
  intros Hnd Hi. rewrite delete_take_drop.
  pose proof (take_drop_middle l i cb Hi) as Hl.
  revert Hl. generalize (take i l) (drop (S i) l). intros l1 l2 <-.
  clear Hi. rewrite fmap_app, fmap_cons in Hnd.
  apply NoDup_app in Hnd as (Hnd1 & Hdisj & [Hnotin Hnd2]%NoDup_cons).
  split_and!.
  - intros cb' [Hin|Hin]%elem_of_app.
    + split; [apply elem_of_app; by left|]. intros Heq.
      apply (Hdisj (cb_frameID cb')); [by apply list_elem_of_fmap_2|].
      rewrite Heq. apply elem_of_cons. by left.
    + split; [apply elem_of_app; right; apply elem_of_cons; by right|].
      intros Heq. apply Hnotin. rewrite <- Heq. by apply list_elem_of_fmap_2.
  - rewrite fmap_app. apply NoDup_app. split_and!; [done| |done].
    intros k Hk1 Hk2. apply (Hdisj k Hk1). apply elem_of_cons. by right.
  - intros k. rewrite !fmap_app, fmap_cons, !elem_of_app, elem_of_cons.
    tauto.
Qed.

Lemma ordered_record_exception e (p : PipelineBase) obs :
  ordered p obs → ordered (record_exception e p) obs.
Proof.
  unfold record_exception. destruct (callbackException p) eqn:He; [done|].
  intros (Hc & Hstore & Hst & Hnd & Hall & Hdel & Hacc).
  unfold ordered. simpl. split_ordered; done.
Qed.

Lemma ordered_extraction_failed i cb e (p : PipelineBase) obs :
  ordered p obs → started p !! i = Some cb →
  ordered (record_exception e (set_started p (delete i (started p)))) obs.
Proof.
  intros (Hc & Hstore & Hst & Hnd & Hall & Hdel & Hacc) Hi.
  destruct (started_without _ _ _ Hnd Hi) as (Hsub & Hnd' & _).
  unfold record_exception. simpl.
  destruct (callbackException p) eqn:Hexc; unfold ordered; simpl;
    (split_ordered; try done; try (intros ?; congruence);
     intros cb' Hcb'; apply Hst; by apply Hsub).
Qed.

Lemma ordered_stored i cb outputs (p : PipelineBase) obs :
  ordered p obs → started p !! i = Some cb → outputs ≠ ∅ →
  ordered (store_result cb outputs (set_started p (delete i (started p)))) obs.
Proof.
  intros (Hc & Hstore & Hst & Hnd & Hall & Hdel & Hacc) Hi Hout.
  destruct (started_without _ _ _ Hnd Hi) as (Hsub & Hnd' & Hcover).
  assert (Hcb : cb ∈ started p) by (by eapply list_elem_of_lookup_2).
  destruct (Hst _ Hcb) as [Hrange Hfresh].
  unfold ordered, store_result. simpl. split_ordered; try done.
  - intros k r. rewrite emplace_lookup.
    destruct (completedInferenceResults p !! k) eqn:Hk.
    + intros [= <-]. by apply Hstore.
    + case_decide as Hd; [|done]. intros [= <-]. by subst.
  - intros cb' Hcb'. destruct (Hsub _ Hcb') as [Hin Hne].
    destruct (Hst _ Hin) as [Hr Hf]. split; [done|].
    rewrite emplace_lookup, Hf. by case_decide.
  - intros Hexc k Hk. rewrite emplace_lookup.
    destruct (Hall Hexc k Hk) as [[r ->]|Hin]; [by left|].
    destruct (Hcover _ Hin) as [->|Hin']; [|by right].
    left. rewrite Hfresh. by case_decide.
Qed.

Lemma ordered_completion i GetBlob hook (p : PipelineBase) obs :
  ordered p obs →
  ordered (step (Completion i GetBlob hook) p).2
    (obs ++ [(step (Completion i GetBlob hook) p).1]).
Proof.
  intros Hord.
  assert (Hobs : ∀ o, ordered p (obs ++ [Completed o]) ↔ ordered p obs).
  { intros o. unfold ordered. rewrite delivered_app, accepted_app. simpl.
    by rewrite !app_nil_r. }
  simpl. destruct (started p !! i) as [cb|] eqn:Hi; simpl.
  - assert (Hobs' : ∀ o q, ordered q obs → ordered q (obs ++ [Completed o])).
    { intros o q. unfold ordered. rewrite delivered_app, accepted_app. simpl.
      by rewrite !app_nil_r. }
    apply Hobs'.
    destruct (extractOutputs GetBlob getOutputsNames ∅) as [e|outs] eqn:He.
    + rewrite (completionCallback_extraction_failed _ _ _ _ _ He). simpl.
      by apply ordered_extraction_failed with cb.
    + assert (Hout : outs ≠ ∅).
      { eapply extractOutputs_nonempty; [|done]. by left. }
      destruct hook as [e|].
      * rewrite (completionCallback_hook_failed _ _ _ _ _ He). simpl.
        apply ordered_record_exception. by apply ordered_stored.
      * rewrite (completionCallback_stored _ _ _ _ He). simpl.
        by apply ordered_stored.
  - by apply Hobs.
Qed.

Lemma ordered_step ev (p : PipelineBase) obs :
  ordered p obs → inputFrameId p < INT64_MAX →
  ordered (step ev p).2 (obs ++ [(step ev p).1]).
Proof.
  intros Hord Hmax. destruct ev as [img now|i GetBlob hook| |].
  - by apply ordered_submit.
  - by apply ordered_completion.
  - apply ordered_consume; [done|lia].
  - simpl. unfold ordered in *. rewrite delivered_app, accepted_app. simpl.
    by rewrite !app_nil_r.
Qed.

Lemma ordered_run evs (p : PipelineBase) obs :
  ordered p obs →
  Z.of_nat (length obs + length evs) ≤ INT64_MAX →
  ordered (run evs p).2 (obs ++ (run evs p).1).
Proof.
  revert p obs. induction evs as [|ev evs IH]; intros p obs Hord Hlen.
  - simpl. by rewrite app_nil_r.
  - rewrite run_cons. simpl. rewrite cons_middle, app_assoc.
    simpl in Hlen. pose proof (ordered_input_bound _ _ Hord).
    apply IH.
    + apply ordered_step; [done|lia].
    + rewrite length_app. simpl. lia.
Qed.

(** With every started request completed and no exception recorded, a
    retrieval finds the next result. *)
Lemma consume_progress (p : PipelineBase) obs :
  ordered p obs → started p = [] → callbackException p = None →
  outputFrameId p < inputFrameId p ≤ INT64_MAX →
  outputFrameId (getInferenceResult p).2 = outputFrameId p + 1
  ∧ inputFrameId (getInferenceResult p).2 = inputFrameId p
  ∧ started (getInferenceResult p).2 = []
  ∧ callbackException (getInferenceResult p).2 = None.
Proof.
  intros (Hc & Hstore & Hst & Hnd & Hall & Hdel & Hacc) Hstarted Hexc Hlt.
  destruct (Hall Hexc (outputFrameId p)) as [[r Hl]|Hin]; [lia| |].
  - destruct (Hstore _ _ Hl) as (Hid & Hout & _).
    assert (Hr : IsEmpty r = false) by (apply IsEmpty_filled; [lia|done]).
    rewrite (getInferenceResult_present _ _ Hl Hr). simpl.
    split_and!; try done. rewrite Hid, next_id_spec by lia.
    destruct (Z.eqb_spec (outputFrameId p) INT64_MAX); lia.
  - rewrite Hstarted in Hin. by apply elem_of_nil in Hin.
Qed.

Lemma drain (m : nat) (p : PipelineBase) obs :
  ordered p obs → started p = [] → callbackException p = None →
  inputFrameId p ≤ INT64_MAX →
  Z.of_nat m ≤ inputFrameId p - outputFrameId p →
  ordered (run (replicate m GetInferenceResult) p).2
    (obs ++ (run (replicate m GetInferenceResult) p).1)
  ∧ outputFrameId (run (replicate m GetInferenceResult) p).2
    = outputFrameId p + Z.of_nat m
  ∧ inputFrameId (run (replicate m GetInferenceResult) p).2 = inputFrameId p.
Proof.
  revert p obs. induction m as [|m IH]; intros p obs Hord Hst Hexc Hmax Hm.
  - simpl. rewrite app_nil_r. split_and!; [done|lia|done].
  - change (replicate (S m) GetInferenceResult)
      with (GetInferenceResult :: replicate m (@GetInferenceResult Blob Exn Image)).
    rewrite run_cons. simpl fst. simpl snd. rewrite cons_middle, app_assoc.
    destruct (consume_progress p obs Hord Hst Hexc) as (Ho & Hi & Hs & He);
      [lia|].
    pose proof (ordered_consume p obs Hord Hmax) as Hord'.
    simpl in Hord'. rewrite (surjective_pairing (getInferenceResult p)) in Hord'.
    simpl in Hord'. simpl.
    rewrite (surjective_pairing (getInferenceResult p)). simpl.
    destruct (IH _ _ Hord' Hs He) as (H1 & H2 & H3); [lia|lia|].
    split_and!; [done|lia|congruence].
Qed.

End Ordering.

(** C1. Assume that the default-constructed result is empty, that a result
    with a frame id and an output is not, that the model has an output, and
    that the run is too short for a counter to wrap around. Take any run of
    the pipeline from its construction: submissions,
    completions of the started requests in any order, each with any outcome,
    retrievals and waits, in any interleaving. The frame ids [submitImage]
    returned are 0, 1, ... in order, up to [inputFrameId]; the results
    [getInferenceResult] returned carry the frame ids 0, 1, ... in order, up
    to [outputFrameId], with no gap and no repetition; a frame id that was
    delivered is not in the store any more; and once every started request
    has completed with no exception recorded, as many retrievals as results
    are outstanding deliver all the submitted frames and leave the store
    empty. *)
Theorem ordered_delivery (size : nat) (evs : list Event) :
  IsEmpty InferenceResult_new = true →
  (∀ r : InferenceResult,
     0 ≤ frameId r → outputsData r ≠ ∅ → IsEmpty r = false) →
  getOutputsNames ≠ [] →
  Z.of_nat (length evs) ≤ INT64_MAX →
  let obs := (run evs (PipelineBase_new size)).1 in
  let p := (run evs (PipelineBase_new size)).2 in
  accepted obs = seqZ 0 (inputFrameId p)
  ∧ delivered obs = seqZ 0 (outputFrameId p)
  ∧ outputFrameId p ≤ inputFrameId p
  ∧ (∀ k, k ∈ delivered obs → completedInferenceResults p !! k = None)
  ∧ (started p = [] → callbackException p = None →
     let n := Z.to_nat (inputFrameId p - outputFrameId p) in
     let rest := run (replicate n GetInferenceResult) p in
     delivered (obs ++ rest.1) = accepted obs
     ∧ completedInferenceResults rest.2 = ∅).
Proof.
  intros Hnew Hfilled Hnames Hlen obs p.
  pose proof (ordered_run Hnew Hfilled Hnames evs (PipelineBase_new size) []
                (ordered_new size)) as Hord.
  simpl in Hord. specialize (Hord Hlen). fold obs p in Hord.
  pose proof (ordered_input_bound _ _ Hord) as Hbound.
  unfold obs in Hbound. rewrite run_length in Hbound.
  pose proof Hord as (Hc & Hstore & Hst & Hnd & Hall & Hdel & Hacc).
  split_and!; try done; try lia.
  - intros k Hk. rewrite Hdel in Hk. apply elem_of_seqZ in Hk.
    destruct (completedInferenceResults p !! k) as [r|] eqn:Hl; [|done].
    apply Hstore in Hl. lia.
  - intros Hstarted Hexc n rest.
    destruct (drain Hnew Hfilled n p obs Hord Hstarted Hexc)
      as (Hord' & Ho & Hi); [lia|lia|].
    fold rest in Hord', Ho, Hi.
    destruct Hord' as (_ & Hstore' & _ & _ & _ & Hdel' & _).
    split.
    + rewrite Hdel', Hacc. f_equal. lia.
    + apply map_empty. intros k.
      destruct (completedInferenceResults rest.2 !! k) as [r|] eqn:Hl; [|done].
      apply Hstore' in Hl. lia.
Qed.

(** ** An exception, once recorded, stays *)

Lemma callbackException_step ev (p : PipelineBase) e :
  callbackException p = Some e → callbackException (step ev p).2 = Some e.
Proof.
  intros He. destruct ev as [img now|i GetBlob hook| |]; simpl.
  - destruct (submitImage_cases img now p)
      as [[_ ->]|(_ & r & _ & [(e' & _ & ->)|(md & _ & ->)])]; done.
  - destruct (started p !! i) as [cb|]; [|done]. simpl.
    destruct (extractOutputs GetBlob getOutputsNames ∅) as [e'|outs] eqn:Hx.
    + rewrite (completionCallback_extraction_failed _ _ _ _ _ Hx). simpl.
      unfold record_exception. simpl. by rewrite He.
    + destruct hook as [e'|].
      * rewrite (completionCallback_hook_failed _ _ _ _ _ Hx). simpl.
        unfold record_exception. simpl. by rewrite He.
      * by rewrite (completionCallback_stored _ _ _ _ Hx).
  - destruct (getInferenceResult_cases p) as (r & p' & -> & _ & _ & Hx & _).
    simpl. congruence.
  - done.
Qed.

(** Retrieval does not depend on [callbackException]: with any other value
    in that member it returns the same and changes the other members in the
    same way. *)
Lemma getInferenceResult_ignores_callbackException (p : PipelineBase)
    (x : option Exn) :
  getInferenceResult (set_callbackException p x)
  = ((getInferenceResult p).1,
     set_callbackException (getInferenceResult p).2 x).
Proof.
  unfold getInferenceResult. eff.
  destruct (completedInferenceResults p !! outputFrameId p) as [r|]; simpl.
  - destruct (IsEmpty r); simpl; [done|].
    by destruct (wrap64 (frameId r + 1) <? 0).
  - destruct (IsEmpty InferenceResult_new); simpl; [done|].
    by destruct (wrap64 (frameId InferenceResult_new + 1) <? 0).
Qed.

(** What [getInferenceResult] returns: the stored result of
    [outputFrameId], or the default-constructed one. *)
Lemma getInferenceResult_value (p : PipelineBase) :
  (getInferenceResult p).1
  = inr (default InferenceResult_new
           (completedInferenceResults p !! outputFrameId p)).
Proof.
  unfold getInferenceResult. eff.
  destruct (completedInferenceResults p !! outputFrameId p) as [r|]; simpl.
  - by destruct (IsEmpty r).
  - by destruct (IsEmpty InferenceResult_new).
Qed.

Lemma getResult_value (p : PipelineBase) :
  (getResult p).1
  = let r := default InferenceResult_new
               (completedInferenceResults p !! outputFrameId p) in
    if IsEmpty r then inr None
    else match postprocess r with
         | inl e => inl e
         | inr payload =>
             inr (Some (mkResult (frameId r) (metaData r) payload))
         end.
Proof.
  pose proof (getInferenceResult_value p) as Hv. unfold getResult. eff.
  destruct (getInferenceResult p) as [[e|r] p']; simpl in Hv; [done|].
  injection Hv as <-. destruct (IsEmpty r); [done|].
  by destruct (postprocess r).
Qed.

(** C2, as the code has it. Once an exception [e] is recorded, no call and
    no completion clears or replaces it, in any run that follows, and every
    [waitForData] of that run rethrows [e], whatever the later completions
    put in the store. [getInferenceResult] and [getResult] do not read
    [callbackException]: with [e] recorded they return what they return with
    no exception recorded, the stored result of [outputFrameId] or, with none
    stored, the default-constructed result and the null pointer; the former
    never throws, and the latter throws only what [postprocess] throws. *)
Theorem recorded_exception_is_sticky (p : PipelineBase) (e : Exn)
    (evs : list Event) :
  callbackException p = Some e →
  callbackException (run evs p).2 = Some e
  ∧ waitForData (run evs p).2 = Some (inl e)
  ∧ (∀ r, Waited r ∈ (run evs p).1 → r = Some (inl e))
  ∧ (∃ r, (getInferenceResult (run evs p).2).1 = inr r)
  ∧ (∀ e', (getResult (run evs p).2).1 = inl e' →
       ∃ r, postprocess r = inl e')
  ∧ (∀ r, Inferred r ∈ (run evs p).1 → ∃ r', r = inr r')
  ∧ (getInferenceResult (run evs p).2).1
    = inr (default InferenceResult_new
             (completedInferenceResults (run evs p).2
                !! outputFrameId (run evs p).2))
  ∧ (getResult (run evs p).2).1
    = (let r := default InferenceResult_new
                  (completedInferenceResults (run evs p).2
                     !! outputFrameId (run evs p).2) in
       if IsEmpty r then inr None
       else match postprocess r with
            | inl e' => inl e'
            | inr payload =>
                inr (Some (mkResult (frameId r) (metaData r) payload))
            end)
  ∧ getInferenceResult (set_callbackException (run evs p).2 None)
    = ((getInferenceResult (run evs p).2).1,
       set_callbackException (getInferenceResult (run evs p).2).2 None)
  ∧ callbackException (getInferenceResult (run evs p).2).2 = Some e.
Proof.
  intros He.
  assert (Hrun : callbackException (run evs p).2 = Some e).
  { apply (run_invariant (λ q, callbackException q = Some e)); [|done].
    intros ev q. apply callbackException_step. }
  split_and!.
  - done.
  - by apply waitForData_raises.
  - clear Hrun. revert p He. induction evs as [|ev evs IH]; intros p He r Hr.
    + by apply elem_of_nil in Hr.
    + rewrite run_cons in Hr. simpl in Hr.
      apply elem_of_cons in Hr as [Hr|Hr].
      * destruct ev as [img now|i GetBlob hook| |]; simpl in Hr.
        -- by destruct (submitImage img now p).
        -- by destruct (started p !! i).
        -- by destruct (getInferenceResult p).
        -- injection Hr as ->. by apply waitForData_raises.
      * apply (IH (step ev p).2); [|done]. by apply callbackException_step.
  - destruct (getInferenceResult_cases (run evs p).2) as (r & q & -> & _).
    by exists r.
  - intros e'. unfold getResult. eff.
    destruct (getInferenceResult_cases (run evs p).2) as (r & q & -> & _).
    simpl. destruct (IsEmpty r); [done|].
    destruct (postprocess r) as [e''|payload] eqn:Hpost; [|done].
    intros [= <-]. by exists r.
  - clear Hrun He. revert p. induction evs as [|ev evs IH]; intros p r Hr.
    + by apply elem_of_nil in Hr.
    + rewrite run_cons in Hr. simpl in Hr.
      apply elem_of_cons in Hr as [Hr|Hr]; [|by eapply IH].
      destruct ev as [img now|i GetBlob hook| |]; simpl in Hr.
      * by destruct (submitImage img now p).
      * by destruct (started p !! i).
      * destruct (getInferenceResult_cases p) as (r0 & q & Hq & _).
        rewrite Hq in Hr. injection Hr as ->. by exists r0.
      * done.
  - apply getInferenceResult_value.
  - apply getResult_value.
  - apply getInferenceResult_ignores_callbackException.
  - destruct (getInferenceResult_cases (run evs p).2)
      as (r & q & -> & _ & _ & Hexc & _).
    simpl. congruence.
Qed.

(** ** The extraction of the outputs *)

Lemma extractOutputs_lookup (GetBlob : string → Exn + Blob) names
    (acc outputs : gmap string Blob) (n : string) :
  extractOutputs GetBlob names acc = inr outputs →
  outputs !! n
  = match acc !! n with
    | Some blob => Some blob
    | None => if decide (n ∈ names) then blob_of (GetBlob n) else None
    end.
Proof.
  revert acc. induction names as [|outName rest IH]; intros acc;
    cbn [extractOutputs].
  - intros [= <-]. destruct (acc !! n); [done|].
    rewrite decide_False; [done|]. apply not_elem_of_nil.
  - destruct (GetBlob outName) as [e|blob] eqn:Hg; [done|].
    intros Hx. rewrite (IH _ Hx), emplace_lookup.
    destruct (acc !! n) as [b|]; [done|].
    destruct (decide (outName = n)) as [->|Hne].
    + rewrite Hg. simpl. rewrite decide_True; [done|]. apply elem_of_cons.
      by left.
    + destruct (decide (n ∈ rest)) as [Hin|Hnin].
      * rewrite decide_True; [done|]. apply elem_of_cons. by right.
      * rewrite decide_False; [done|]. rewrite elem_of_cons.
        intros [?|?]; [congruence|done].
Qed.

Lemma extractOutputs_inr (GetBlob : string → Exn + Blob) names
    (acc : gmap string Blob) :
  (∃ outputs, extractOutputs GetBlob names acc = inr outputs)
  ↔ ∀ n, n ∈ names → ∃ blob, GetBlob n = inr blob.
Proof.
  revert acc. induction names as [|outName rest IH]; intros acc; simpl.
  - split; [|by eauto]. intros _ n Hn. by apply elem_of_nil in Hn.
  - destruct (GetBlob outName) as [e|blob] eqn:Hg.
    + split; [by intros [? ?]|]. intros Hall.
      destruct (Hall outName) as [b Hb]; [apply elem_of_cons; by left|].
      congruence.
    + rewrite IH. split.
      * intros Hall n [->|Hn]%elem_of_cons; [by eauto|by apply Hall].
      * intros Hall n Hn. apply Hall, elem_of_cons. by right.
Qed.

(** X1. The loop over the output names succeeds exactly when the request
    answers every declared name with a blob, and then [outputsData] holds
    the blob of each declared name and nothing else. *)
Theorem extraction_copies_every_declared_output
    (GetBlob : string → Exn + Blob) :
  ((∃ outputs, extractOutputs GetBlob getOutputsNames ∅ = inr outputs)
   ↔ ∀ n, n ∈ getOutputsNames → ∃ blob, GetBlob n = inr blob)
  ∧ (∀ outputs n,
       extractOutputs GetBlob getOutputsNames ∅ = inr outputs →
       outputs !! n
       = if decide (n ∈ getOutputsNames) then blob_of (GetBlob n) else None).
Proof.
  split; [apply extractOutputs_inr|].
  intros outputs n Hx. rewrite (extractOutputs_lookup _ _ _ _ n Hx).
  by rewrite lookup_empty.
Qed.

Lemma extractOutputs_inl (GetBlob : string → Exn + Blob) names
    (acc : gmap string Blob) (e : Exn) :
  extractOutputs GetBlob names acc = inl e
  ↔ ∃ before outName after,
      names = before ++ outName :: after
      ∧ GetBlob outName = inl e
      ∧ ∀ n, n ∈ before → ∃ blob, GetBlob n = inr blob.
Proof.
  revert acc. induction names as [|first rest IH]; intros acc; simpl.
  - split; [done|]. intros (before & outName & after & Hnames & _).
    by destruct before.
  - destruct (GetBlob first) as [e'|blob] eqn:Hg.
    + split.
      * intros [= ->]. exists [], first, rest. split_and!; [done|done|].
        intros n Hn. by apply elem_of_nil in Hn.
      * intros (before & outName & after & Hnames & He & Hbefore).
        destruct before as [|b before]; simpl in Hnames.
        -- injection Hnames as -> ->. congruence.
        -- injection Hnames as <- ->.
           destruct (Hbefore first) as [blob Hb]; [apply elem_of_cons; by left|].
           congruence.
    + rewrite IH. split.
      * intros (before & outName & after & -> & He & Hbefore).
        exists (first :: before), outName, after. split_and!; [done|done|].
        intros n [->|Hn]%elem_of_cons; [by eauto|by apply Hbefore].
      * intros (before & outName & after & Hnames & He & Hbefore).
        destruct before as [|b before]; simpl in Hnames.
        -- injection Hnames as -> ->. congruence.
        -- injection Hnames as <- ->. exists before, outName, after.
           split_and!; [done|done|]. intros n Hn. apply Hbefore, elem_of_cons.
           by right.
Qed.

(** X2. The loop over the output names throws [e] exactly when [e] is what
    the request throws for the first declared name it has no blob for; the
    callback then records [e] (or keeps the exception recorded before) and
    stores no result. *)
Theorem extraction_fails_with_first_exception cb
    (GetBlob : string → Exn + Blob) hook (e : Exn) (p : PipelineBase) :
  (extractOutputs GetBlob getOutputsNames ∅ = inl e
   ↔ ∃ before outName after,
       getOutputsNames = before ++ outName :: after
       ∧ GetBlob outName = inl e
       ∧ ∀ n, n ∈ before → ∃ blob, GetBlob n = inr blob)
  ∧ (extractOutputs GetBlob getOutputsNames ∅ = inl e →
     completedInferenceResults (completionCallback cb GetBlob hook p).2
     = completedInferenceResults p
     ∧ callbackException (completionCallback cb GetBlob hook p).2
       = Some (default e (callbackException p))).
Proof.
  split; [apply extractOutputs_inl|]. intros He.
  rewrite (completionCallback_extraction_failed _ _ _ _ _ He). simpl.
  unfold record_exception.
  destruct (callbackException p) as [e0|] eqn:Hexc; simpl; [|done].
  by rewrite Hexc.
Qed.

(** ** What a completion leaves *)

(** X3. A callback whose extraction succeeds, for a frame id the store does
    not hold, stores under that id the result made of the frame id, the
    metadata and the start time of its submission and of the outputs
    extracted, whatever the hook does, and leaves the other results alone. *)
Theorem completion_stores_the_result_of_its_submission cb GetBlob hook outputs
    (p : PipelineBase) :
  completedInferenceResults p !! cb_frameID cb = None →
  extractOutputs GetBlob getOutputsNames ∅ = inr outputs →
  completedInferenceResults (completionCallback cb GetBlob hook p).2
  = <[cb_frameID cb :=
        mkInferenceResult (cb_frameID cb) (cb_metaData cb) outputs
          (cb_frameStartTime cb)]> (completedInferenceResults p).
Proof.
  intros Hfresh He.
  assert (Hstore : completedInferenceResults (store_result cb outputs p)
                   = <[cb_frameID cb :=
                         mkInferenceResult (cb_frameID cb) (cb_metaData cb)
                           outputs (cb_frameStartTime cb)]>
                       (completedInferenceResults p)).
  { simpl. unfold emplace. by rewrite Hfresh. }
  destruct hook as [e|].
  - rewrite (completionCallback_hook_failed _ _ _ _ _ He). simpl.
    unfold record_exception.
    by destruct (callbackException (store_result cb outputs p)).
  - by rewrite (completionCallback_stored _ _ _ _ He).
Qed.

Lemma isIdleRequestAvailable_lookup (pool : list bool) (r : Request) :
  pool !! r = Some false → isIdleRequestAvailable pool = true.
Proof.
  revert r. induction pool as [|busy rest IH]; intros r; [done|].
  destruct r as [|r]; simpl.
  - by intros [= ->].
  - intros Hr. rewrite (IH _ Hr). by destruct busy.
Qed.

Lemma isIdleRequestAvailable_all_busy (pool : list bool) :
  (∀ r, (r < length pool)%nat → pool !! r = Some true) →
  isIdleRequestAvailable pool = false.
Proof.
  induction pool as [|busy rest IH]; intros Hall; [done|]. simpl.
  assert (Hb : busy = true).
  { specialize (Hall 0%nat). simpl in Hall.
    assert (Some busy = Some true) as [= ->] by (apply Hall; lia). done. }
  rewrite Hb. simpl. apply IH. intros r Hr. apply (Hall (S r)). simpl. lia.
Qed.

Lemma waitForData_idle (p : PipelineBase) :
  isIdleRequestAvailable (requestsPool p) = true → is_Some (waitForData p).
Proof.
  intros Hidle. unfold waitForData, waitForData_ready. rewrite Hidle.
  rewrite orb_true_r. simpl. by destruct (callbackException p).
Qed.

Lemma callback_slot_idle cb GetBlob hook outputs (p : PipelineBase) :
  (cb_request cb < length (requestsPool p))%nat →
  extractOutputs GetBlob getOutputsNames ∅ = inr outputs →
  requestsPool (completionCallback cb GetBlob hook p).2 !! cb_request cb
  = Some false.
Proof.
  intros Hlt He.
  assert (Hidle : requestsPool (store_result cb outputs p) !! cb_request cb
                  = Some false).
  { simpl. unfold setRequestIdle. by apply list_lookup_insert_eq. }
  destruct hook as [e|].
  - rewrite (completionCallback_hook_failed _ _ _ _ _ He). simpl.
    unfold record_exception.
    by destruct (callbackException (store_result cb outputs p)).
  - by rewrite (completionCallback_stored _ _ _ _ He).
Qed.

(** X4. After a callback has run for a request of the pool, [waitForData]
    does not stay in its wait: either the request is idle again or an
    exception is recorded. *)
Theorem completion_ends_the_wait cb GetBlob hook (p : PipelineBase) :
  (cb_request cb < length (requestsPool p))%nat →
  is_Some (waitForData (completionCallback cb GetBlob hook p).2).
Proof.
  intros Hlt.
  destruct (extractOutputs GetBlob getOutputsNames ∅) as [e|outs] eqn:He.
  - rewrite (completionCallback_extraction_failed _ _ _ _ _ He). simpl.
    unfold record_exception.
    destruct (callbackException p) as [e0|] eqn:Hexc.
    + by rewrite (waitForData_raises _ e0).
    + by rewrite (waitForData_raises _ e).
  - assert (Hidle : isIdleRequestAvailable
                      (requestsPool (store_result cb outs p)) = true).
    { apply (isIdleRequestAvailable_lookup _ (cb_request cb)). simpl.
      unfold setRequestIdle. by apply list_lookup_insert_eq. }
    destruct hook as [e|].
    + rewrite (completionCallback_hook_failed _ _ _ _ _ He). simpl.
      unfold record_exception.
      destruct (callbackException (store_result cb outs p)) eqn:Hexc.
      * by apply waitForData_idle.
      * by rewrite (waitForData_raises _ e).
    + rewrite (completionCallback_stored _ _ _ _ He). simpl.
      by apply waitForData_idle.
Qed.

(** ** The requests in flight *)

Lemma delete_NoDup_fmap {A B} (f : A → B) (l : list A) (i : nat) (x : A) :
  NoDup (f <$> l) → l !! i = Some x →
  NoDup (f <$> delete i l)
  ∧ ∀ y, y ∈ delete i l → y ∈ l ∧ f y ≠ f x.
Proof.
  intros Hnd Hi. rewrite delete_take_drop.
  pose proof (take_drop_middle l i x Hi) as Hl.
  revert Hl. generalize (take i l) (drop (S i) l). intros l1 l2 <-.
  clear Hi. rewrite fmap_app, fmap_cons in Hnd.
  apply NoDup_app in Hnd as (Hnd1 & Hdisj & [Hnotin Hnd2]%NoDup_cons).
  split.
  - rewrite fmap_app. apply NoDup_app. split_and!; [done| |done].
    intros k Hk1 Hk2. apply (Hdisj k Hk1). apply elem_of_cons. by right.
  - intros y [Hin|Hin]%elem_of_app.
    + split; [apply elem_of_app; by left|]. intros Heq.
      apply (Hdisj (f y)); [by apply list_elem_of_fmap_2|].
      rewrite Heq. apply elem_of_cons. by left.
    + split; [apply elem_of_app; right; apply elem_of_cons; by right|].
      intros Heq. apply Hnotin. rewrite <- Heq. by apply list_elem_of_fmap_2.
Qed.

Lemma in_flight_new size : in_flight size (PipelineBase_new size).
Proof.
  unfold in_flight, RequestsPool_new. simpl. split_and!.
  - apply length_replicate.
  - constructor.
  - intros cb Hcb. by apply elem_of_nil in Hcb.
Qed.

Lemma in_flight_acquire size (p : PipelineBase) (r : Request) :
  in_flight size p → requestsPool p !! r = Some false →
  in_flight size (set_requestsPool p (<[r := true]> (requestsPool p)))
  ∧ r ∉ cb_request <$> started p.
Proof.
  intros (Hlen & Hnd & Hbusy) Hr. split.
  - unfold in_flight. simpl. split_and!; [by rewrite length_insert|done|].
    intros cb Hcb. specialize (Hbusy cb Hcb).
    destruct (decide (r = cb_request cb)) as [Heq|Hne]; [congruence|].
    by rewrite list_lookup_insert_ne.
  - intros (cb & -> & Hcb)%list_elem_of_fmap. specialize (Hbusy cb Hcb).
    congruence.
Qed.

Lemma in_flight_step size ev (p : PipelineBase) :
  in_flight size p → in_flight size (step ev p).2.
Proof.
  intros Hfl. destruct ev as [img now|i GetBlob hook| |].
  - simpl.
    destruct (submitImage_cases img now p)
      as [[_ ->]|(_ & r & Hr & [(e & _ & ->)|(md & _ & ->)])]; simpl.
    + done.
    + by apply in_flight_acquire.
    + destruct (in_flight_acquire size p r Hfl Hr)
        as ((Hlen & Hnd & Hbusy) & Hnew). simpl in *.
      unfold in_flight. simpl. split_and!; [done| |].
      * rewrite fmap_app. simpl. apply NoDup_app. split_and!; [done| |].
        -- intros k Hk ->%list_elem_of_singleton. done.
        -- apply NoDup_singleton.
      * intros cb [Hcb| ->%list_elem_of_singleton]%elem_of_app.
        -- by apply Hbusy.
        -- simpl. apply list_lookup_insert_eq. by eapply lookup_lt_Some.
  - simpl. destruct (started p !! i) as [cb|] eqn:Hi; simpl; [|done].
    destruct Hfl as (Hlen & Hnd & Hbusy).
    destruct (delete_NoDup_fmap cb_request _ _ _ Hnd Hi) as [Hnd' Hrest].
    assert (Hkeep : ∀ q : PipelineBase,
              requestsPool q = requestsPool p →
              started q = delete i (started p) → in_flight size q).
    { intros q Hq1 Hq2. unfold in_flight. rewrite Hq1, Hq2.
      split_and!; [done|done|]. intros cb' Hcb'. apply Hbusy.
      by apply Hrest. }
    assert (Hrel : ∀ q : PipelineBase,
              requestsPool q = setRequestIdle (requestsPool p) (cb_request cb) →
              started q = delete i (started p) → in_flight size q).
    { intros q Hq1 Hq2. unfold in_flight, setRequestIdle. rewrite Hq1, Hq2.
      unfold setRequestIdle.
      split_and!; [by rewrite length_insert|done|]. intros cb' Hcb'.
      destruct (Hrest _ Hcb') as [Hin Hne].
      rewrite list_lookup_insert_ne by done. by apply Hbusy. }
    destruct (extractOutputs GetBlob getOutputsNames ∅) as [e|outs] eqn:He.
    + rewrite (completionCallback_extraction_failed _ _ _ _ _ He). simpl.
      unfold record_exception. simpl.
      destruct (callbackException p); by apply Hkeep.
    + destruct hook as [e|].
      * rewrite (completionCallback_hook_failed _ _ _ _ _ He). simpl.
        unfold record_exception. simpl.
        destruct (callbackException p); by apply Hrel.
      * rewrite (completionCallback_stored _ _ _ _ He). simpl.
        by apply Hrel.
  - simpl. destruct (getInferenceResult_cases p)
      as (r & p' & -> & Hpool & _ & _ & Hst & _).
    simpl. unfold in_flight in *. by rewrite Hpool, Hst.
  - done.
Qed.

Lemma in_flight_run size evs : in_flight size (run evs (PipelineBase_new size)).2.
Proof.
  apply (run_invariant (in_flight size)); [apply in_flight_step|].
  apply in_flight_new.
Qed.

Lemma in_flight_requests size (p : PipelineBase) :
  in_flight size p → cb_request <$> started p ⊆+ seq 0 size.
Proof.
  intros (Hlen & Hnd & Hbusy). apply NoDup_submseteq; [done|].
  intros r (cb & -> & Hcb)%list_elem_of_fmap. apply elem_of_seq.
  specialize (Hbusy cb Hcb). apply lookup_lt_Some in Hbusy. lia.
Qed.

(** X5. In every pipeline a run leads to, the started requests are distinct
    requests of the pool and all of them are busy: no request runs two
    submissions at a time, and no more requests are in flight than the pool
    has. *)
Theorem started_requests_are_distinct_and_busy (size : nat)
    (evs : list Event) :
  let p := (run evs (PipelineBase_new size)).2 in
  length (requestsPool p) = size
  ∧ NoDup (cb_request <$> started p)
  ∧ Forall (λ cb, requestsPool p !! cb_request cb = Some true) (started p)
  ∧ (length (started p) ≤ size)%nat.
Proof.
  intros p. pose proof (in_flight_run size evs) as Hfl. fold p in Hfl.
  pose proof (in_flight_requests _ _ Hfl) as Hsub.
  destruct Hfl as (Hlen & Hnd & Hbusy). split_and!; [done|done| |].
  - by apply Forall_forall.
  - apply submseteq_length in Hsub.
    by rewrite length_fmap, length_seq in Hsub.
Qed.

(** X6. In every pipeline a run leads to, when as many requests are in
    flight as the pool has, [submitImage] is rejected: it returns -1 and
    changes nothing. *)
Theorem full_pool_rejects_submission (size : nat) (evs : list Event)
    img now :
  let p := (run evs (PipelineBase_new size)).2 in
  length (started p) = size →
  submitImage img now p = (inr (-1), p).
Proof.
  intros p Hfull. pose proof (in_flight_run size evs) as Hfl. fold p in Hfl.
  pose proof (in_flight_requests _ _ Hfl) as Hsub.
  destruct Hfl as (Hlen & Hnd & Hbusy).
  apply submitImage_rejected, isIdleRequestAvailable_all_busy.
  intros r Hr.
  assert (Hperm : cb_request <$> started p ≡ₚ seq 0 size).
  { apply submseteq_length_Permutation; [done|].
    rewrite length_fmap, length_seq. lia. }
  assert (Hin : r ∈ cb_request <$> started p).
  { rewrite Hperm. apply elem_of_seq. lia. }
  apply list_elem_of_fmap in Hin as (cb & -> & Hcb). by apply Hbusy.
Qed.

(** X7. In every pipeline a run leads to, once a started request has
    completed with its outputs extracted, the next [submitImage] finds an
    idle request: a value it returns is the next frame id, not -1. *)
Theorem completed_request_can_be_submitted_again (size : nat)
    (evs : list Event) i GetBlob hook outputs img now :
  let p := (run evs (PipelineBase_new size)).2 in
  let p' := (step (Completion i GetBlob hook) p).2 in
  is_Some (started p !! i) →
  extractOutputs GetBlob getOutputsNames ∅ = inr outputs →
  isIdleRequestAvailable (requestsPool p') = true
  ∧ ∀ id, (submitImage img now p').1 = inr id →
      id = inputFrameId p ∧ 0 ≤ id.
Proof.
  intros p p' [cb Hi] He.
  pose proof (in_flight_run size evs) as (Hlen & Hnd & Hbusy).
  fold p in Hlen, Hnd, Hbusy.
  pose proof (well_formed_run size evs) as (Hin & _). fold p in Hin.
  assert (Hlt : (cb_request cb < length (requestsPool p))%nat).
  { eapply lookup_lt_Some, Hbusy. by eapply list_elem_of_lookup_2. }
  pose proof (callback_slot_idle cb GetBlob hook outputs
                (set_started p (delete i (started p))) Hlt He) as Hidle.
  pose proof (completionCallback_cases cb GetBlob hook
                (set_started p (delete i (started p)))) as (Hinp & _).
  assert (Hp' : p' = (completionCallback cb GetBlob hook
                        (set_started p (delete i (started p)))).2).
  { unfold p'. simpl. by rewrite Hi. }
  rewrite <- Hp' in Hidle, Hinp. simpl in Hinp.
  apply isIdleRequestAvailable_lookup in Hidle. split; [done|].
  intros id Hid.
  destruct (submitImage_cases img now p')
    as [[Hn _]|(_ & r & _ & [(e & _ & Hs)|(md & _ & Hs)])].
  - congruence.
  - rewrite Hs in Hid. done.
  - rewrite Hs in Hid. simpl in Hid. injection Hid as <-. lia.
Qed.

(** ** Requests that stay busy *)

Lemma leaked_step size ev r (p : PipelineBase) :
  in_flight size p → leaked r p → leaked r (step ev p).2.
Proof.
  intros Hfl [Hbusy Hnot]. destruct ev as [img now|i GetBlob hook| |].
  - simpl.
    destruct (submitImage_cases img now p)
      as [[_ ->]|(_ & r' & Hr' & [(e & _ & ->)|(md & _ & ->)])]; simpl.
    + done.
    + split; [|done]. simpl.
      rewrite list_lookup_insert_ne; [done|congruence].
    + assert (r' ≠ r) by congruence. split; simpl.
      * by rewrite list_lookup_insert_ne.
      * rewrite fmap_app. simpl. intros [?|?%list_elem_of_singleton]%elem_of_app;
          [done|congruence].
  - simpl. destruct (started p !! i) as [cb|] eqn:Hi; simpl; [|done].
    destruct Hfl as (_ & Hnd & _).
    destruct (delete_NoDup_fmap cb_request _ _ _ Hnd Hi) as [_ Hrest].
    assert (Hcb : cb_request cb ≠ r).
    { intros <-. apply Hnot. apply list_elem_of_fmap_2.
      by eapply list_elem_of_lookup_2. }
    assert (Hnot' : r ∉ cb_request <$> delete i (started p)).
    { intros (cb' & -> & Hcb')%list_elem_of_fmap. apply Hnot.
      apply list_elem_of_fmap_2. by apply Hrest. }
    assert (Hrel : setRequestIdle (requestsPool p) (cb_request cb) !! r
                   = Some true).
    { unfold setRequestIdle. by rewrite list_lookup_insert_ne. }
    destruct (extractOutputs GetBlob getOutputsNames ∅) as [e|outs] eqn:He.
    + rewrite (completionCallback_extraction_failed _ _ _ _ _ He). simpl.
      unfold record_exception. simpl. by destruct (callbackException p).
    + destruct hook as [e|].
      * rewrite (completionCallback_hook_failed _ _ _ _ _ He). simpl.
        unfold record_exception. simpl. by destruct (callbackException p).
      * by rewrite (completionCallback_stored _ _ _ _ He).
  - simpl. destruct (getInferenceResult_cases p)
      as (r0 & p' & -> & Hpool & _ & _ & Hst & _).
    simpl. unfold leaked. by rewrite Hpool, Hst.
  - done.
Qed.

Lemma leaked_run size evs r (p : PipelineBase) :
  in_flight size p → leaked r p → leaked r (run evs p).2.
Proof.
  intros Hfl Hleak.
  apply (run_invariant (λ q, in_flight size q ∧ leaked r q)); [|done].
  intros ev q [Hq1 Hq2]. split; [by apply in_flight_step|].
  by eapply leaked_step.
Qed.

(** X8. When [preprocess] throws, [submitImage] throws the same exception
    with the request it took still marked busy: no frame id is used and no
    request is started, and in every run that follows that request stays
    busy, so the pool has lost it. *)
Theorem failed_preprocess_loses_the_request (size : nat)
    (evs later : list Event) img now (e : Exn) :
  let p := (run evs (PipelineBase_new size)).2 in
  let p' := (submitImage img now p).2 in
  (submitImage img now p).1 = inl e →
  ∃ r, requestsPool p !! r = Some false
       ∧ preprocess img r = inl e
       ∧ p' = set_requestsPool p (<[r := true]> (requestsPool p))
       ∧ requestsPool (run later p').2 !! r = Some true.
Proof.
  intros p p' He. pose proof (in_flight_run size evs) as Hfl. fold p in Hfl.
  unfold p'.
  destruct (submitImage_cases img now p)
    as [[_ Hs]|(_ & r & Hr & [(e' & Hpre & Hs)|(md & _ & Hs)])];
    rewrite Hs in He |- *; simpl in He; try done.
  injection He as ->. exists r. split_and!; try done. simpl.
  destruct (in_flight_acquire size p r Hfl Hr) as [Hfl' Hnot].
  apply (leaked_run size later r); [done|]. split; [|done]. simpl.
  apply list_lookup_insert_eq. by eapply lookup_lt_Some.
Qed.

(** X9. When the extraction of the outputs fails in the callback of a
    started request, that request stays busy in every run that follows: no
    later call or completion sets it idle. *)
Theorem failed_extraction_loses_the_request (size : nat)
    (evs later : list Event) i cb GetBlob hook (e : Exn) :
  let p := (run evs (PipelineBase_new size)).2 in
  let p' := (step (Completion i GetBlob hook) p).2 in
  started p !! i = Some cb →
  extractOutputs GetBlob getOutputsNames ∅ = inl e →
  requestsPool (run later p').2 !! cb_request cb = Some true.
Proof.
  intros p p' Hi He. pose proof (in_flight_run size evs) as Hfl. fold p in Hfl.
  assert (Hfl' : in_flight size p') by (by apply in_flight_step).
  apply (leaked_run size later (cb_request cb)); [done|].
  destruct Hfl as (_ & Hnd & Hbusy).
  destruct (delete_NoDup_fmap cb_request _ _ _ Hnd Hi) as [_ Hrest].
  unfold p'. simpl. rewrite Hi. simpl.
  rewrite (completionCallback_extraction_failed _ _ _ _ _ He). simpl.
  assert (Hleak : leaked (cb_request cb) (set_started p (delete i (started p)))).
  { split; simpl.
    - apply Hbusy. by eapply list_elem_of_lookup_2.
    - intros (cb' & Heq & Hcb')%list_elem_of_fmap.
      destruct (Hrest _ Hcb') as [_ Hne]. congruence. }
  unfold record_exception. simpl. by destruct (callbackException p).
Qed.

(** ** [getResult] *)

(** X10. In every pipeline a run leads to, when the store holds a result
    for [outputFrameId] that is not empty, [getResult] takes it out of the
    store and moves [outputFrameId] on before it calls [postprocess]: the
    caller gets the result with that frame id and the stored metadata, or
    the exception of [postprocess], and in both cases the frame is gone from
    the store. *)
Theorem getResult_consumes_before_postprocess (size : nat)
    (evs : list Event) (r : InferenceResult) :
  let p := (run evs (PipelineBase_new size)).2 in
  completedInferenceResults p !! outputFrameId p = Some r →
  IsEmpty r = false →
  (getResult p).1
  = match postprocess r with
    | inl e => inl e
    | inr payload =>
        inr (Some (mkResult (outputFrameId p) (metaData r) payload))
    end
  ∧ (getResult p).2
    = mkPipelineBase (requestsPool p)
        (delete (outputFrameId p) (completedInferenceResults p))
        (perfMetrics p ++ [startTime r]) (inputFrameId p)
        (if outputFrameId p =? INT64_MAX then 0 else outputFrameId p + 1)
        (callbackException p) (started p).
Proof.
  intros p Hl Hr. destruct (well_formed_run size evs) as (_ & Hout & Hstore).
  fold p in Hout, Hstore. pose proof (Hstore _ _ Hl) as Hid.
  rewrite getResult_state, (getInferenceResult_present _ _ Hl Hr). simpl.
  rewrite Hid, next_id_spec by done. split; [|done].
  unfold getResult. eff. rewrite (getInferenceResult_present _ _ Hl Hr).
  simpl. rewrite Hr, Hid. by destruct (postprocess r).
Qed.

(** X11. In every pipeline a run leads to, with a default-constructed
    result that is empty: a result [getResult] returns carries the frame id
    [outputFrameId] had before the call, the metadata of the stored result
    and what [postprocess] made of it; and [getResult] returns the null
    pointer exactly when the store has no result for [outputFrameId] or has
    one that is empty. *)
Theorem getResult_returns_the_frame_of_outputFrameId (size : nat)
    (evs : list Event) :
  let p := (run evs (PipelineBase_new size)).2 in
  IsEmpty InferenceResult_new = true →
  (∀ res, (getResult p).1 = inr (Some res) →
     ∃ r, completedInferenceResults p !! outputFrameId p = Some r
          ∧ res_frameId res = outputFrameId p
          ∧ res_metaData res = metaData r
          ∧ postprocess r = inr (res_payload res))
  ∧ ((getResult p).1 = inr None ↔
     completedInferenceResults p !! outputFrameId p = None
     ∨ ∃ r, completedInferenceResults p !! outputFrameId p = Some r
            ∧ IsEmpty r = true).
Proof.
  intros p Hnew. destruct (well_formed_run size evs) as (_ & _ & Hstore).
  fold p in Hstore. unfold getResult. eff.
  destruct (completedInferenceResults p !! outputFrameId p) as [r|] eqn:Hl.
  - pose proof (Hstore _ _ Hl) as Hid. destruct (IsEmpty r) eqn:Hr.
    + rewrite (getInferenceResult_present_empty _ _ Hl Hr). simpl.
      rewrite Hr. simpl. split; [done|]. split; [|done]. intros _. right.
      by exists r.
    + rewrite (getInferenceResult_present _ _ Hl Hr). simpl. rewrite Hr.
      destruct (postprocess r) as [e|payload] eqn:Hpost; simpl.
      * split; [done|]. split; [done|].
        intros [?|(r' & [= <-] & ?)]; congruence.
      * split.
        -- intros res [= <-]. exists r. by rewrite Hid.
        -- split; [done|]. intros [?|(r' & [= <-] & ?)]; congruence.
  - rewrite (getInferenceResult_absent _ Hnew Hl). simpl. rewrite Hnew. simpl.
    split; [done|]. split; [|done]. intros _. by left.
Qed.

(** X12. A stored result for [outputFrameId] that [IsEmpty] finds empty is
    erased and returned with [outputFrameId] and the performance metrics
    left as they were; the next retrieval finds nothing under that frame id
    and changes nothing. *)
Theorem empty_stored_result_is_dropped (p : PipelineBase)
    (r : InferenceResult) :
  IsEmpty InferenceResult_new = true →
  completedInferenceResults p !! outputFrameId p = Some r →
  IsEmpty r = true →
  let p' := (getInferenceResult p).2 in
  getInferenceResult p
  = (inr r, set_completedInferenceResults p
              (delete (outputFrameId p) (completedInferenceResults p)))
  ∧ getInferenceResult p' = (inr InferenceResult_new, p').
Proof.
  intros Hnew Hl Hr p'. unfold p'.
  rewrite (getInferenceResult_present_empty _ _ Hl Hr). split; [done|].
  simpl. apply getInferenceResult_absent; [done|]. simpl.
  apply lookup_delete_eq.
Qed.

(** ** The performance metrics *)

Lemma received_app (obs1 obs2 : list Observation) :
  received (obs1 ++ obs2) = received obs1 ++ received obs2.
Proof.
  induction obs1 as [|o obs1 IH]; [done|]. simpl.
  destruct o as [| |[e|r]|]; try done. destruct (IsEmpty r); [done|].
  simpl. by rewrite IH.
Qed.

Lemma delivered_received (obs : list Observation) :
  delivered obs = frameId <$> received obs.
Proof.
  induction obs as [|o obs IH]; [done|]. simpl.
  destruct o as [| |[e|r]|]; try done. destruct (IsEmpty r); [done|].
  simpl. by rewrite IH.
Qed.

Lemma perfMetrics_step ev (p : PipelineBase) :
  perfMetrics (step ev p).2
  = perfMetrics p ++ (startTime <$> received [(step ev p).1]).
Proof.
  destruct ev as [img now|i GetBlob hook| |]; simpl.
  - destruct (submitImage_cases img now p)
      as [[_ ->]|(_ & r & _ & [(e & _ & ->)|(md & _ & ->)])]; simpl;
      by rewrite app_nil_r.
  - destruct (started p !! i) as [cb|]; simpl; [|by rewrite app_nil_r].
    pose proof (completionCallback_cases cb GetBlob hook
                  (set_started p (delete i (started p))))
      as (_ & _ & _ & Hperf & _).
    simpl in Hperf. by rewrite Hperf, app_nil_r.
  - destruct (completedInferenceResults p !! outputFrameId p) as [r|] eqn:Hl.
    + destruct (IsEmpty r) eqn:Hr.
      * rewrite (getInferenceResult_present_empty _ _ Hl Hr). simpl.
        by rewrite Hr, app_nil_r.
      * rewrite (getInferenceResult_present _ _ Hl Hr). simpl. by rewrite Hr.
    + unfold getInferenceResult. eff. rewrite Hl. simpl.
      destruct (IsEmpty InferenceResult_new) eqn:Hr; simpl.
      * by rewrite Hr, app_nil_r.
      * rewrite Hr.
        by destruct (wrap64 (frameId InferenceResult_new + 1) <? 0).
  - by rewrite app_nil_r.
Qed.

(** X13. The performance metrics are updated once for each result the
    caller received and for nothing else, in the order of delivery, each
    time with the start time that result carries. *)
Theorem perfMetrics_follow_the_delivered_results (evs : list Event)
    (p : PipelineBase) :
  perfMetrics (run evs p).2
  = perfMetrics p ++ (startTime <$> received (run evs p).1).
Proof.
  revert p. induction evs as [|ev evs IH]; intros p.
  - simpl. by rewrite app_nil_r.
  - rewrite run_cons. simpl fst. simpl snd. rewrite IH, perfMetrics_step.
    change ((step ev p).1 :: (run evs (step ev p).2).1)
      with ([(step ev p).1] ++ (run evs (step ev p).2).1).
    by rewrite received_app, fmap_app, app_assoc.
Qed.

(** ** Metadata and start time of a delivered result *)

Lemma run_history (I : list Event → list Observation → PipelineBase → Prop) :
  (∀ evs obs p ev, length evs = length obs → I evs obs p →
     I (evs ++ [ev]) (obs ++ [(step ev p).1]) (step ev p).2) →
  ∀ p0, I [] [] p0 → ∀ evs, I evs (run evs p0).1 (run evs p0).2.
Proof.
  intros Hstep p0 Hinit evs.
  assert (Hgen : ∀ evs evs0 obs0 p, length evs0 = length obs0 → I evs0 obs0 p →
            I (evs0 ++ evs) (obs0 ++ (run evs p).1) (run evs p).2).
  { clear evs. induction evs as [|ev evs IH]; intros evs0 obs0 p Hlen Hp.
    - simpl. by rewrite !app_nil_r.
    - rewrite run_cons. simpl fst. simpl snd.
      rewrite (cons_middle ev), (cons_middle (step ev p).1), !app_assoc.
      apply IH; [rewrite !length_app; simpl; lia|]. by apply Hstep. }
  apply (Hgen evs [] [] p0); done.
Qed.

Lemma submissions_app (evs1 evs2 : list Event) (obs1 obs2 : list Observation) :
  length evs1 = length obs1 →
  submissions (evs1 ++ evs2) (obs1 ++ obs2)
  = submissions evs1 obs1 ++ submissions evs2 obs2.
Proof.
  revert obs1. induction evs1 as [|ev evs1 IH]; intros [|o obs1] Hlen;
    try done.
  simpl in Hlen. injection Hlen as Hlen. specialize (IH obs1 Hlen). simpl.
  destruct ev as [img now|i GetBlob hook| |]; try done.
  destruct o as [[e|id]| | |]; try done.
  destruct (id =? -1); [done|]. simpl. by rewrite IH.
Qed.

Lemma traced_app subs1 subs2 id time (md : MetaData) :
  traced subs1 id time md → traced (subs1 ++ subs2) id time md.
Proof.
  intros (img & request & Hin & Hpre). exists img, request.
  split; [|done]. apply elem_of_app. by left.
Qed.

Lemma passed_through_step evs obs (p : PipelineBase) ev :
  IsEmpty InferenceResult_new = true →
  length evs = length obs →
  passed_through evs obs p →
  passed_through (evs ++ [ev]) (obs ++ [(step ev p).1]) (step ev p).2.
Proof.
  intros Hnew Hlen (Hin & Hst & Hstore & Hrec).
  unfold passed_through. rewrite (submissions_app _ _ _ _ Hlen), received_app.
  set (subs := submissions evs obs) in *.
  destruct ev as [img now|i GetBlob hook| |].
  - simpl.
    destruct (submitImage_cases img now p)
      as [[_ ->]|(_ & r & _ & [(e & _ & ->)|(md & Hpre & ->)])]; simpl.
    + rewrite !app_nil_r. done.
    + rewrite !app_nil_r. done.
    + destruct (Z.eqb_spec (inputFrameId p) (-1)) as [?|_]; [lia|].
      rewrite app_nil_r. split_and!.
      * apply next_id_range.
      * intros cb [Hcb| ->%list_elem_of_singleton]%elem_of_app.
        -- by apply traced_app, Hst.
        -- exists img, r. split; [|done]. apply elem_of_app. right.
           by apply list_elem_of_singleton.
      * intros k r0 Hk. by eapply traced_app, Hstore.
      * intros r0 Hr0. by apply traced_app, Hrec.
  - simpl. destruct (started p !! i) as [cb|] eqn:Hi; simpl;
      rewrite !app_nil_r; [|done].
    pose proof (completionCallback_cases cb GetBlob hook
                  (set_started p (delete i (started p))))
      as (Hi' & _ & Hs' & _ & Hstore').
    simpl in Hi', Hs', Hstore'. rewrite Hi', Hs'.
    assert (Hcb : cb ∈ started p) by (by eapply list_elem_of_lookup_2).
    split_and!; [done| | |done].
    + intros cb' Hcb'. apply Hst.
      rewrite delete_take_drop in Hcb'.
      rewrite <- (take_drop_middle _ _ _ Hi).
      apply elem_of_app in Hcb' as [?|?]; apply elem_of_app; [by left|].
      right. apply elem_of_cons. by right.
    + intros k r. destruct Hstore' as [->|(outs & _ & ->)]; [apply Hstore|].
      rewrite emplace_lookup.
      destruct (completedInferenceResults p !! k) as [r'|] eqn:Hk.
      * intros [= <-]. by eapply Hstore.
      * case_decide; [|done]. intros [= <-]. simpl. by apply Hst.
  - simpl. rewrite (surjective_pairing (getInferenceResult p)). simpl.
    rewrite app_nil_r.
    destruct (completedInferenceResults p !! outputFrameId p) as [r|] eqn:Hl.
    + assert (Hsub : ∀ k r0,
                delete (outputFrameId p) (completedInferenceResults p) !! k
                = Some r0 →
                traced subs (frameId r0) (startTime r0) (metaData r0)).
      { intros k r0. rewrite lookup_delete. case_decide; [done|].
        apply Hstore. }
      destruct (IsEmpty r) eqn:Hr.
      * rewrite (getInferenceResult_present_empty _ _ Hl Hr). simpl.
        rewrite Hr, app_nil_r. done.
      * rewrite (getInferenceResult_present _ _ Hl Hr). simpl. rewrite Hr.
        split_and!; [done|done|done|].
        intros r0 [Hr0| ->%list_elem_of_singleton]%elem_of_app.
        -- by apply Hrec.
        -- by eapply Hstore.
    + rewrite (getInferenceResult_absent _ Hnew Hl). simpl.
      rewrite Hnew, app_nil_r. done.
  - simpl. rewrite !app_nil_r. done.
Qed.

(** X14. With a default-constructed result that is empty, every result the
    caller received in a run from the construction carries the frame id, the
    start time and the metadata of one accepted submission of that run: the
    id [submitImage] returned for it, the time of that call, and what
    [preprocess] made of its image. *)
Theorem delivered_result_carries_its_submission (size : nat)
    (evs : list Event) (r : InferenceResult) :
  let obs := (run evs (PipelineBase_new size)).1 in
  IsEmpty InferenceResult_new = true →
  r ∈ received obs →
  ∃ img request,
    (frameId r, startTime r, img) ∈ submissions evs obs
    ∧ preprocess img request = inr (metaData r).
Proof.
  intros obs Hnew Hr.
  assert (Hinv : passed_through evs obs (run evs (PipelineBase_new size)).2).
  { apply (run_history passed_through).
    - intros evs' obs' p ev Hlen Hp. by apply passed_through_step.
    - unfold passed_through. simpl. split_and!; try done.
      + intros cb Hcb. by apply elem_of_nil in Hcb.
      + intros r0 Hr0. by apply elem_of_nil in Hr0. }
  destruct Hinv as (_ & _ & _ & Hrec). by apply Hrec.
Qed.

(** ** Frames in flight *)

Lemma run_app evs1 evs2 (p : PipelineBase) :
  run (evs1 ++ evs2) p
  = ((run evs1 p).1 ++ (run evs2 (run evs1 p).2).1,
     (run evs2 (run evs1 p).2).2).
Proof.
  revert p. induction evs1 as [|ev evs1 IH]; intros p.
  - simpl. by destruct (run evs2 p).
  - rewrite <- app_comm_cons, !run_cons, IH. done.
Qed.

Section Stalled.

Hypothesis IsEmpty_new : IsEmpty InferenceResult_new = true.
Hypothesis IsEmpty_filled :
  ∀ r : InferenceResult, 0 ≤ frameId r → outputsData r ≠ ∅ → IsEmpty r = false.
Hypothesis outputs_declared : getOutputsNames ≠ [].

Lemma stalled_step k ev (p : PipelineBase) obs :
  ordered p obs → inputFrameId p < INT64_MAX →
  stalled k p → stalled k (step ev p).2.
Proof.
  intros (Hc & Hstore & Hst & Hnd & Hall & Hdel & Hacc) Hmax
    (Hnone & Hnot & Hrange).
  destruct ev as [img now|i GetBlob hook| |].
  - simpl.
    destruct (submitImage_cases img now p)
      as [[_ ->]|(_ & r & _ & [(e & _ & ->)|(md & _ & ->)])]; simpl;
      try done.
    unfold stalled. simpl. split_and!; [done| |lia|].
    + rewrite fmap_app. simpl.
      intros [?|?%list_elem_of_singleton]%elem_of_app; [done|lia].
    + pose proof (next_id_spec (inputFrameId p)) as Hnext.
      destruct (Z.eqb_spec (inputFrameId p) INT64_MAX); lia.
  - simpl. destruct (started p !! i) as [cb|] eqn:Hi; simpl; [|done].
    pose proof (completionCallback_cases cb GetBlob hook
                  (set_started p (delete i (started p))))
      as (Hi' & Ho' & Hs' & _ & Hstore').
    simpl in Hi', Ho', Hs', Hstore'. unfold stalled. rewrite Hi', Ho', Hs'.
    destruct (started_without _ _ _ Hnd Hi) as (Hsub & _ & _).
    split_and!; try lia.
    + destruct Hstore' as [->|(outs & _ & ->)]; [done|].
      rewrite emplace_lookup, Hnone. case_decide as Hk; [|done].
      exfalso. apply Hnot. rewrite <- Hk. apply list_elem_of_fmap_2.
      by eapply list_elem_of_lookup_2.
    + intros (cb' & -> & Hcb')%list_elem_of_fmap. apply Hnot.
      apply list_elem_of_fmap_2. by apply Hsub.
  - simpl. rewrite (surjective_pairing (getInferenceResult p)). simpl.
    destruct (completedInferenceResults p !! outputFrameId p) as [r|] eqn:Hl.
    + destruct (Hstore _ _ Hl) as (Hid & Hout & Hr).
      assert (Hne : IsEmpty r = false) by (apply IsEmpty_filled; [lia|done]).
      rewrite (getInferenceResult_present _ _ Hl Hne). unfold stalled. simpl.
      assert (outputFrameId p ≠ k) by congruence.
      rewrite Hid, next_id_spec by lia.
      destruct (Z.eqb_spec (outputFrameId p) INT64_MAX); [lia|].
      split_and!; [|done|lia|lia]. rewrite lookup_delete. by case_decide.
    + by rewrite (getInferenceResult_absent _ IsEmpty_new Hl).
  - done.
Qed.

Lemma stalled_run k evs (p : PipelineBase) obs :
  ordered p obs →
  Z.of_nat (length obs + length evs) ≤ INT64_MAX →
  stalled k p → stalled k (run evs p).2.
Proof.
  revert p obs. induction evs as [|ev evs IH]; intros p obs Hord Hlen Hk;
    [done|].
  rewrite run_cons. simpl. simpl in Hlen.
  pose proof (ordered_input_bound _ _ Hord).
  apply (IH _ (obs ++ [(step ev p).1])).
  - apply ordered_step; [done..|lia].
  - rewrite length_app. simpl. lia.
  - eapply stalled_step; [done|lia|done].
Qed.

End Stalled.

(** X16. Under the assumptions of C1: once the extraction of the outputs
    has failed in the callback of frame [k], no later call or completion
    delivers frame [k] or a frame after it: [outputFrameId] stays at or below
    [k] and every delivered frame id is below [k]. *)
Theorem failed_frame_stops_the_delivery (size : nat)
    (evs later : list Event) i cb GetBlob hook (e : Exn) :
  let run_all :=
    run (evs ++ Completion i GetBlob hook :: later) (PipelineBase_new size) in
  IsEmpty InferenceResult_new = true →
  (∀ r : InferenceResult,
     0 ≤ frameId r → outputsData r ≠ ∅ → IsEmpty r = false) →
  getOutputsNames ≠ [] →
  Z.of_nat (length (evs ++ Completion i GetBlob hook :: later)) ≤ INT64_MAX →
  started (run evs (PipelineBase_new size)).2 !! i = Some cb →
  extractOutputs GetBlob getOutputsNames ∅ = inl e →
  outputFrameId run_all.2 ≤ cb_frameID cb
  ∧ Forall (λ id, id < cb_frameID cb) (delivered run_all.1).
Proof.
  intros run_all Hnew Hfilled Hnames Hlen Hi He.
  pose proof (ordered_run Hnew Hfilled Hnames _ (PipelineBase_new size) []
                (ordered_new size) Hlen) as Hall.
  simpl in Hall. fold run_all in Hall.
  destruct Hall as (Hc' & _ & _ & _ & _ & Hdel' & _).
  assert (Hout : outputFrameId run_all.2 ≤ cb_frameID cb).
  { unfold run_all. rewrite run_app, run_cons. simpl snd.
    set (p := (run evs (PipelineBase_new size)).2) in *.
    set (obs := (run evs (PipelineBase_new size)).1).
    rewrite length_app in Hlen. simpl in Hlen.
    assert (Hord : ordered p obs).
    { apply (ordered_run Hnew Hfilled Hnames evs (PipelineBase_new size) []
               (ordered_new size)). simpl. lia. }
    assert (Hobs : length obs = length evs) by apply run_length.
    clearbody p obs.
    pose proof (ordered_input_bound _ _ Hord) as Hbound.
    pose proof (ordered_step Hnew Hfilled Hnames (Completion i GetBlob hook)
                  p obs Hord) as Hord'.
    assert (Hst : stalled (cb_frameID cb)
                    (step (Completion i GetBlob hook) p).2).
    { destruct Hord as (Hc & Hstore & Hst & Hnd & _).
      destruct (started_without _ _ _ Hnd Hi) as (Hsub & _ & _).
      assert (Hcb : cb ∈ started p) by (by eapply list_elem_of_lookup_2).
      destruct (Hst _ Hcb) as [Hrange Hnone].
      simpl. rewrite Hi. simpl.
      rewrite (completionCallback_extraction_failed _ _ _ _ _ He). simpl.
      assert (Hs : stalled (cb_frameID cb)
                     (set_started p (delete i (started p)))).
      { split_and!; simpl; [done| |lia|lia].
        intros (cb' & Heq & Hcb')%list_elem_of_fmap.
        destruct (Hsub _ Hcb') as [_ Hne]. congruence. }
      unfold record_exception. simpl. by destruct (callbackException p). }
    assert (Hlt : inputFrameId p < INT64_MAX) by lia.
    pose proof (stalled_run Hnew Hfilled Hnames (cb_frameID cb) later
                  _ _ (Hord' Hlt)) as Hfin.
    destruct Hfin as (_ & _ & Hfin);
      [rewrite length_app; simpl; lia|done|apply Hfin]. }
  split; [done|]. rewrite Hdel'. apply Forall_seqZ. lia.
Qed.

(** ** Who writes which member *)

(** X17. The completion callback, which the backend runs on its own
    threads, writes neither of the two counters nor the performance metrics,
    the members the driver thread uses outside of the lock; a submission
    leaves the store, [outputFrameId], the metrics and the recorded exception
    alone; a retrieval leaves the pool, [inputFrameId], the recorded
    exception and the started requests alone and adds nothing to the store;
    [waitForData] changes nothing. *)
Theorem members_are_written_by_one_side ev (p : PipelineBase) :
  match ev with
  | SubmitImage _ _ =>
      completedInferenceResults (step ev p).2 = completedInferenceResults p
      ∧ outputFrameId (step ev p).2 = outputFrameId p
      ∧ perfMetrics (step ev p).2 = perfMetrics p
      ∧ callbackException (step ev p).2 = callbackException p
  | Completion _ _ _ =>
      inputFrameId (step ev p).2 = inputFrameId p
      ∧ outputFrameId (step ev p).2 = outputFrameId p
      ∧ perfMetrics (step ev p).2 = perfMetrics p
  | GetInferenceResult =>
      requestsPool (step ev p).2 = requestsPool p
      ∧ inputFrameId (step ev p).2 = inputFrameId p
      ∧ callbackException (step ev p).2 = callbackException p
      ∧ started (step ev p).2 = started p
      ∧ completedInferenceResults (step ev p).2
        = delete (outputFrameId p) (completedInferenceResults p)
  | WaitForData => (step ev p).2 = p
  end.
Proof.
  destruct ev as [img now|i GetBlob hook| |]; simpl.
  - destruct (submitImage_cases img now p)
      as [[_ ->]|(_ & r & _ & [(e & _ & ->)|(md & _ & ->)])]; done.
  - destruct (started p !! i) as [cb|]; simpl; [|done].
    pose proof (completionCallback_cases cb GetBlob hook
                  (set_started p (delete i (started p))))
      as (Hi & Ho & _ & Hperf & _).
    done.
  - destruct (getInferenceResult_cases p)
      as (r & p' & -> & Hpool & Hi & Hexc & Hst & Hstore & _).
    done.
  - done.
Qed.

(** ** An accepted submission *)

(** X18. In every pipeline a run leads to, when the pool has an idle
    request and [preprocess] succeeds, [submitImage] returns [inputFrameId]
    and starts exactly one request, one that was idle: its callback is bound
    to the returned frame id, the time of the call and the metadata
    [preprocess] made, and it is appended to the started requests; the
    request is busy afterwards. *)
Theorem accepted_submission_starts_one_request (size : nat)
    (evs : list Event) img now (id : Z) :
  let p := (run evs (PipelineBase_new size)).2 in
  let p' := (submitImage img now p).2 in
  (submitImage img now p).1 = inr id →
  isIdleRequestAvailable (requestsPool p) = true →
  ∃ r md,
    requestsPool p !! r = Some false
    ∧ preprocess img r = inr md
    ∧ id = inputFrameId p
    ∧ started p' = started p ++ [mkCallback now id r md]
    ∧ requestsPool p' = <[r := true]> (requestsPool p)
    ∧ requestsPool p' !! r = Some true
    ∧ length (started p') = S (length (started p)).
Proof.
  intros p p' Hid Hidle. unfold p'.
  destruct (submitImage_cases img now p)
    as [[Hn _]|(_ & r & Hr & [(e & _ & Hs)|(md & Hpre & Hs)])];
    [congruence|rewrite Hs in Hid; done|].
  rewrite Hs in Hid |- *. simpl in *. injection Hid as <-.
  exists r, md. split_and!; try done.
  - apply list_lookup_insert_eq. by eapply lookup_lt_Some.
  - rewrite length_app. simpl. lia.
Qed.

(** ** Waiting and then retrieving *)

(** X19. Under the assumptions of C1, in every pipeline a run leads to:
    when [waitForData] returns normally although no request is idle, the
    result of [outputFrameId] is ready, and the [getInferenceResult] that
    follows returns it: a result that is not empty and carries that frame
    id. *)
Theorem wait_then_retrieve_delivers (size : nat) (evs : list Event) :
  let p := (run evs (PipelineBase_new size)).2 in
  IsEmpty InferenceResult_new = true →
  (∀ r : InferenceResult,
     0 ≤ frameId r → outputsData r ≠ ∅ → IsEmpty r = false) →
  getOutputsNames ≠ [] →
  Z.of_nat (length evs) ≤ INT64_MAX →
  waitForData p = Some (inr ()) →
  isIdleRequestAvailable (requestsPool p) = false →
  ∃ r, (getInferenceResult p).1 = inr r
       ∧ IsEmpty r = false
       ∧ frameId r = outputFrameId p
       ∧ outputFrameId (getInferenceResult p).2 = outputFrameId p + 1.
Proof.
  intros p Hnew Hfilled Hnames Hlen Hwait Hbusy.
  pose proof (ordered_run Hnew Hfilled Hnames evs (PipelineBase_new size) []
                (ordered_new size) Hlen) as Hord.
  simpl in Hord. fold p in Hord.
  pose proof (ordered_input_bound _ _ Hord) as Hbound.
  rewrite run_length in Hbound.
  destruct Hord as (Hc & Hstore & _).
  unfold waitForData, waitForData_ready in Hwait. rewrite Hbusy in Hwait.
  destruct (callbackException p) as [e|] eqn:Hexc; simpl in Hwait.
  { by repeat case_match. }
  destruct (completedInferenceResults p !! outputFrameId p) as [r|] eqn:Hl;
    [|done].
  destruct (Hstore _ _ Hl) as (Hid & Hout & Hrange).
  assert (Hr : IsEmpty r = false) by (apply Hfilled; [lia|done]).
  exists r. rewrite (getInferenceResult_present _ _ Hl Hr). simpl.
  split_and!; try done. rewrite Hid, next_id_spec by lia.
  destruct (Z.eqb_spec (outputFrameId p) INT64_MAX); lia.
Qed.

(** ** A pool with no request *)

Lemma empty_pool_step ev :
  IsEmpty InferenceResult_new = true →
  (step ev (PipelineBase_new 0)).2 = PipelineBase_new 0
  ∧ accepted [(step ev (PipelineBase_new 0)).1] = []
  ∧ delivered [(step ev (PipelineBase_new 0)).1] = [].
Proof.
  intros Hnew. destruct ev as [img now|i GetBlob hook| |]; unfold step.
  - by rewrite submitImage_rejected.
  - done.
  - rewrite getInferenceResult_absent by done. simpl. by rewrite Hnew.
  - done.
Qed.

(** X20. A pipeline constructed with no request in its pool, with a
    default-constructed result that is empty, never changes: every
    [submitImage] is rejected, nothing is ever delivered, and [waitForData]
    stays in its wait, whatever is called. *)
Theorem empty_pool_accepts_nothing (evs : list Event) :
  IsEmpty InferenceResult_new = true →
  (run evs (PipelineBase_new 0)).2 = PipelineBase_new 0
  ∧ accepted (run evs (PipelineBase_new 0)).1 = []
  ∧ delivered (run evs (PipelineBase_new 0)).1 = []
  ∧ Forall (λ o, ∀ r, o = Waited r → r = None) (run evs (PipelineBase_new 0)).1.
Proof.
  intros Hnew. induction evs as [|ev evs (IH1 & IH2 & IH3 & IH4)].
  - simpl. split_and!; done.
  - rewrite run_cons. simpl fst. simpl snd.
    destruct (empty_pool_step ev Hnew) as (Hs & Ha & Hd). rewrite Hs.
    change ((step ev (PipelineBase_new 0)).1 :: (run evs (PipelineBase_new 0)).1)
      with ([(step ev (PipelineBase_new 0)).1]
            ++ (run evs (PipelineBase_new 0)).1).
    rewrite accepted_app, delivered_app, Ha, Hd, IH2, IH3.
    split_and!; try done. apply Forall_app. split; [|done].
    apply Forall_singleton. intros r Hr.
    destruct ev as [img now|i GetBlob hook| |]; simpl in Hr.
    + by destruct (submitImage img now (PipelineBase_new 0)).
    + done.
    + by destruct (getInferenceResult (PipelineBase_new 0)).
    + by injection Hr as <-.
Qed.

(** ** A [StartAsync] that throws *)

Lemma submitRequest_or_throw_eq request md now outcome (p : PipelineBase) :
  submitRequest_or_throw request md now outcome p
  = match outcome with
    | None => submitRequest request md now p
    | Some e =>
        (inl e, set_started (submitRequest request md now p).2 (started p))
    end.
Proof.
  rewrite submitRequest_eq. unfold submitRequest_or_throw, next_id. eff.
  destruct outcome as [e|]; simpl;
    by destruct (wrap64 (inputFrameId p + 1) <? 0).
Qed.

Lemma submitImage_or_throw_eq img now outcome (p : PipelineBase) :
  submitImage_or_throw img now outcome p
  = match outcome with
    | None => submitImage img now p
    | Some e =>
        if reaches_StartAsync img p
        then (inl e, set_started (submitImage img now p).2 (started p))
        else submitImage img now p
    end.
Proof.
  unfold submitImage_or_throw, submitImage, reaches_StartAsync. eff.
  destruct (getIdleRequest (requestsPool p)) as [[r|] pool]; simpl.
  - destruct (preprocess img r) as [e'|md]; simpl.
    + by destruct outcome.
    + rewrite submitRequest_or_throw_eq. by destruct outcome.
  - by destruct outcome.
Qed.

Lemma submitImage_request img now (p : PipelineBase) r pool :
  getIdleRequest (requestsPool p) = (Some r, pool) →
  submitImage img now p
  = match preprocess img r with
    | inl e => (inl e, set_requestsPool p pool)
    | inr md => submitRequest r md now (set_requestsPool p pool)
    end.
Proof.
  intros Hg. unfold submitImage. eff. rewrite Hg. simpl.
  by destruct (preprocess img r).
Qed.

(** X21. The outcome of [request->StartAsync()] decides a submission that
    gets that far: when it returns, [submitImage] is as described above; when
    it throws [e], [submitImage] throws [e] and leaves the pipeline as the
    accepted submission would, the request taken and [inputFrameId]
    incremented, but with no request started; a submission that is rejected
    or fails in [preprocess] never calls it. *)
Theorem StartAsync_outcome_decides_the_submission img now (e : Exn)
    (p : PipelineBase) :
  submitImage_or_throw img now None p = submitImage img now p
  ∧ submitImage_or_throw img now (Some e) p
    = (if reaches_StartAsync img p
       then (inl e, set_started (submitImage img now p).2 (started p))
       else submitImage img now p)
  ∧ (reaches_StartAsync img p = true ↔
     isIdleRequestAvailable (requestsPool p) = true
     ∧ (submitImage img now p).1 = inr (inputFrameId p)).
Proof.
  split_and!; [apply (submitImage_or_throw_eq img now None)
              |apply (submitImage_or_throw_eq img now (Some e))|].
  unfold reaches_StartAsync.
  destruct (isIdleRequestAvailable (requestsPool p)) eqn:Ha.
  - destruct (getIdleRequest_available _ Ha) as (r & Hg & Hr).
    rewrite (submitImage_request img now p r _ Hg), Hg. cbn [fst].
    destruct (preprocess img r) as [e'|md].
    + split; [done|]. by intros [_ ?].
    + by rewrite submitRequest_eq.
  - rewrite (getIdleRequest_exhausted _ Ha). simpl. split; [done|].
    by intros [? _].
Qed.

(** The two ways a [submitImage] whose [StartAsync] would throw ends: it
    does not get that far, and is rejected or fails in [preprocess]; or it
    does, with the frame id taken and no request started. *)
Lemma StartAsync_cases img now (p : PipelineBase) :
  (reaches_StartAsync img p = false
   ∧ (submitImage img now p = (inr (-1), p)
      ∨ ∃ pool, (submitImage img now p).2 = set_requestsPool p pool))
  ∨ (reaches_StartAsync img p = true
     ∧ ∃ r md,
         preprocess img r = inr md
         ∧ set_started (submitImage img now p).2 (started p)
           = mkPipelineBase (<[r := true]> (requestsPool p))
             (completedInferenceResults p) (perfMetrics p)
             (next_id (inputFrameId p)) (outputFrameId p)
             (callbackException p) (started p)).
Proof.
  unfold reaches_StartAsync.
  destruct (isIdleRequestAvailable (requestsPool p)) eqn:Ha.
  - destruct (getIdleRequest_available _ Ha) as (r & Hg & Hr).
    rewrite (submitImage_request img now p r _ Hg), Hg. cbn [fst].
    destruct (preprocess img r) as [e'|md] eqn:Hpre.
    + left. split; [done|]. right. by eexists.
    + right. split; [done|]. exists r, md. by rewrite submitRequest_eq.
  - left. rewrite (getIdleRequest_exhausted _ Ha). simpl. split; [done|].
    left. by apply submitImage_rejected.
Qed.

(** ** Frames in flight in a run with throwing [StartAsync] calls *)

Lemma run_calls_cons c calls (p : PipelineBase) :
  run_calls (c :: calls) p
  = ((step_call c p).1 :: (run_calls calls (step_call c p).2).1,
     (run_calls calls (step_call c p).2).2).
Proof.
  simpl. destruct (step_call c p) as [o p1]. simpl.
  by destruct (run_calls calls p1) as [os p2].
Qed.

Lemma run_calls_app calls1 calls2 (p : PipelineBase) :
  run_calls (calls1 ++ calls2) p
  = ((run_calls calls1 p).1 ++ (run_calls calls2 (run_calls calls1 p).2).1,
     (run_calls calls2 (run_calls calls1 p).2).2).
Proof.
  revert p. induction calls1 as [|c calls1 IH]; intros p.
  - simpl. by destruct (run_calls calls2 p).
  - rewrite <- app_comm_cons, !run_calls_cons, IH. done.
Qed.

Lemma run_calls_Returning evs (p : PipelineBase) :
  run_calls (Returning <$> evs) p = run evs p.
Proof.
  revert p. induction evs as [|ev evs IH]; intros p; [done|].
  rewrite fmap_cons, run_calls_cons, run_cons, IH. done.
Qed.


Lemma lost_frames_Returning evs (p : PipelineBase) :
  lost_frames (Returning <$> evs) p = [].
Proof.
  revert p. induction evs as [|ev evs IH]; intros p; [done|].
  rewrite fmap_cons. simpl. apply IH.
Qed.

Lemma accounted_new size : accounted [] (PipelineBase_new size).
Proof.
  unfold accounted. simpl.
  refine (conj _ (conj _ (conj _ (conj _ (conj _ _))))); try done.
  - intros cb Hcb. by apply elem_of_nil in Hcb.
  - constructor.
  - intros k Hk. by apply elem_of_nil in Hk.
  - intros _ k Hk. lia.
Qed.

Section Accounted.

Hypothesis IsEmpty_new : IsEmpty InferenceResult_new = true.
Hypothesis IsEmpty_filled :
  ∀ r : InferenceResult, 0 ≤ frameId r → outputsData r ≠ ∅ → IsEmpty r = false.
Hypothesis outputs_declared : getOutputsNames ≠ [].

Ltac split_accounted :=
  refine (conj _ (conj _ (conj _ (conj _ (conj _ _))))).

(** The request is started, or its [StartAsync] threw and the frame id
    joins the lost ones. *)
Lemma accounted_submitted lost (p : PipelineBase) pool cb (refused : bool) :
  accounted lost p → inputFrameId p < INT64_MAX →
  cb_frameID cb = inputFrameId p →
  accounted (lost ++ (if refused then [inputFrameId p] else []))
    (mkPipelineBase pool (completedInferenceResults p) (perfMetrics p)
       (next_id (inputFrameId p)) (outputFrameId p) (callbackException p)
       (started p ++ (if refused then [] else [cb]))).
Proof.
  intros (Hc & Hstore & Hst & Hnd & Hlost & Hall) Hmax Hcb.
  assert (Hnext : next_id (inputFrameId p) = inputFrameId p + 1).
  { rewrite next_id_spec by lia.
    destruct (Z.eqb_spec (inputFrameId p) INT64_MAX); lia. }
  rewrite Hnext.
  assert (Hfresh : completedInferenceResults p !! inputFrameId p = None).
  { destruct (completedInferenceResults p !! inputFrameId p) as [r0|] eqn:E;
      [|done]. apply Hstore in E. lia. }
  assert (Hnotstarted : inputFrameId p ∉ cb_frameID <$> started p).
  { intros (cb' & Heq & Hcb')%list_elem_of_fmap. apply Hst in Hcb'. lia. }
  assert (Hnotlost : inputFrameId p ∉ lost).
  { intros Hin. apply Hlost in Hin. lia. }
  unfold accounted. simpl. split_accounted.
  - lia.
  - intros k r0 Hk. apply Hstore in Hk. split_and!; try apply Hk. lia.
  - intros cb' Hcb'. destruct refused.
    + rewrite app_nil_r in Hcb'. apply Hst in Hcb'. split; [lia|apply Hcb'].
    + apply elem_of_app in Hcb' as [Hcb'| ->%list_elem_of_singleton].
      * apply Hst in Hcb'. split; [lia|apply Hcb'].
      * rewrite Hcb. split; [lia|done].
  - destruct refused; [by rewrite app_nil_r|].
    rewrite fmap_app. simpl. apply NoDup_app. split; [done|]. split.
    + intros k Hk ->%list_elem_of_singleton. by rewrite Hcb in Hk.
    + apply NoDup_singleton.
  - intros k Hk. destruct refused.
    + rewrite app_nil_r.
      apply elem_of_app in Hk as [Hk| ->%list_elem_of_singleton].
      * destruct (Hlost _ Hk) as (? & ? & ?). split_and!; [lia|lia|done|done].
      * split_and!; [lia|lia|done|done].
    + rewrite app_nil_r in Hk. destruct (Hlost _ Hk) as (? & ? & Hns).
      split_and!; [lia|lia|done|]. rewrite fmap_app. simpl.
      intros [?|?%list_elem_of_singleton]%elem_of_app; [done|].
      apply Hnotlost. congruence.
  - intros Hexc k Hk.
    destruct (decide (k = inputFrameId p)) as [->|Hne].
    + right. destruct refused.
      * right. apply elem_of_app. right. by apply list_elem_of_singleton.
      * left. rewrite fmap_app. simpl. apply elem_of_app. right.
        apply list_elem_of_singleton. by rewrite Hcb.
    + destruct (Hall Hexc k) as [?|[?|?]]; [lia|by left| |].
      * right. left. rewrite fmap_app. apply elem_of_app. by left.
      * right. right. apply elem_of_app. by left.
Qed.

Lemma accounted_pool lost (p : PipelineBase) pool :
  accounted lost p → accounted lost (set_requestsPool p pool).
Proof. done. Qed.

Lemma accounted_record_exception lost e (p : PipelineBase) :
  accounted lost p → accounted lost (record_exception e p).
Proof.
  unfold record_exception. destruct (callbackException p) eqn:He; [done|].
  intros (Hc & Hstore & Hst & Hnd & Hlost & Hall).
  unfold accounted. simpl. split_accounted; done.
Qed.

Lemma accounted_extraction_failed lost i cb e (p : PipelineBase) :
  accounted lost p → started p !! i = Some cb →
  accounted lost (record_exception e (set_started p (delete i (started p)))).
Proof.
  intros (Hc & Hstore & Hst & Hnd & Hlost & Hall) Hi.
  destruct (started_without _ _ _ Hnd Hi) as (Hsub & Hnd' & _).
  assert (Hlost' : ∀ k, k ∈ lost →
            outputFrameId p ≤ k < inputFrameId p
            ∧ completedInferenceResults p !! k = None
            ∧ (k ∉ cb_frameID <$> delete i (started p))).
  { intros k Hk. destruct (Hlost _ Hk) as (? & ? & Hns).
    split; [done|]. split; [done|].
    intros (cb' & -> & Hcb')%list_elem_of_fmap. apply Hns.
    apply list_elem_of_fmap_2. by apply Hsub. }
  unfold record_exception. simpl.
  destruct (callbackException p) eqn:Hexc; unfold accounted; simpl;
    (split_accounted; try done; try (intros ?; congruence);
     intros cb' Hcb'; apply Hst; by apply Hsub).
Qed.

Lemma accounted_stored lost i cb outputs (p : PipelineBase) :
  accounted lost p → started p !! i = Some cb → outputs ≠ ∅ →
  accounted lost
    (store_result cb outputs (set_started p (delete i (started p)))).
Proof.
  intros (Hc & Hstore & Hst & Hnd & Hlost & Hall) Hi Hout.
  destruct (started_without _ _ _ Hnd Hi) as (Hsub & Hnd' & Hcover).
  assert (Hcb : cb ∈ started p) by (by eapply list_elem_of_lookup_2).
  destruct (Hst _ Hcb) as [Hrange Hfresh].
  unfold accounted, store_result. simpl. split_accounted; try done.
  - intros k r. rewrite emplace_lookup.
    destruct (completedInferenceResults p !! k) eqn:Hk.
    + intros [= <-]. by apply Hstore.
    + case_decide as Hd; [|done]. intros [= <-]. by subst.
  - intros cb' Hcb'. destruct (Hsub _ Hcb') as [Hin Hne].
    destruct (Hst _ Hin) as [Hr Hf]. split; [done|].
    rewrite emplace_lookup, Hf. by case_decide.
  - intros k Hk. destruct (Hlost _ Hk) as (? & Hnone & Hns).
    split; [done|]. split.
    + rewrite emplace_lookup, Hnone. case_decide as Hd; [|done].
      exfalso. apply Hns. rewrite <- Hd. by apply list_elem_of_fmap_2.
    + intros (cb' & -> & Hcb')%list_elem_of_fmap. apply Hns.
      apply list_elem_of_fmap_2. by apply Hsub.
  - intros Hexc k Hk. rewrite emplace_lookup.
    destruct (Hall Hexc k Hk) as [[r ->]|[Hin|Hin]]; [by left| |by auto].
    destruct (Hcover _ Hin) as [->|Hin']; [|by auto].
    left. rewrite Hfresh. by case_decide.
Qed.

Lemma accounted_consume lost (p : PipelineBase) :
  accounted lost p → inputFrameId p ≤ INT64_MAX →
  accounted lost (getInferenceResult p).2.
Proof.
  intros (Hc & Hstore & Hst & Hnd & Hlost & Hall) Hmax.
  destruct (completedInferenceResults p !! outputFrameId p) as [r|] eqn:Hl.
  - destruct (Hstore _ _ Hl) as (Hid & Hout & Hrange).
    assert (Hr : IsEmpty r = false) by (apply IsEmpty_filled; [lia|done]).
    rewrite (getInferenceResult_present _ _ Hl Hr). simpl.
    assert (Hnext : next_id (frameId r) = outputFrameId p + 1).
    { rewrite Hid, next_id_spec by lia.
      destruct (Z.eqb_spec (outputFrameId p) INT64_MAX); lia. }
    rewrite Hnext. unfold accounted. simpl. split_accounted.
    + lia.
    + intros k r0. rewrite lookup_delete. case_decide as Hk; [done|].
      intros Hk0. apply Hstore in Hk0. split_and!; try apply Hk0. lia.
    + intros cb Hcb. apply Hst in Hcb as [Hcb1 Hcb2].
      assert (cb_frameID cb ≠ outputFrameId p) by congruence.
      split; [lia|]. rewrite lookup_delete. by case_decide.
    + done.
    + intros k Hk. destruct (Hlost _ Hk) as (? & Hnone & ?).
      assert (k ≠ outputFrameId p) by congruence.
      split_and!; [lia|lia| |done]. rewrite lookup_delete. by case_decide.
    + intros Hexc k Hk. destruct (Hall Hexc k) as [Hs|Hs]; [lia| |by right].
      left. rewrite lookup_delete. case_decide; [lia|done].
  - by rewrite (getInferenceResult_absent _ IsEmpty_new Hl).
Qed.

Lemma accounted_step lost c (p : PipelineBase) :
  accounted lost p → inputFrameId p < INT64_MAX →
  accounted (lost ++ lost_by c p) (step_call c p).2
  ∧ inputFrameId (step_call c p).2 ≤ inputFrameId p + 1.
Proof.
  intros Hacc Hmax. pose proof Hacc as (Hc & _).
  assert (Hnext : next_id (inputFrameId p) = inputFrameId p + 1).
  { rewrite next_id_spec by lia.
    destruct (Z.eqb_spec (inputFrameId p) INT64_MAX); lia. }
  destruct c as [[img now|i GetBlob hook| |]|img now e]; simpl.
  - rewrite app_nil_r.
    destruct (submitImage_cases img now p)
      as [[_ ->]|(_ & r & _ & [(e & _ & ->)|(md & _ & ->)])]; simpl.
    + split; [done|lia].
    + split; [done|lia].
    + split; [|lia].
      pose proof (accounted_submitted lost p (<[r:=true]> (requestsPool p))
                    (mkCallback now (inputFrameId p) r md) false Hacc Hmax
                    eq_refl) as Hsub.
      by rewrite app_nil_r in Hsub.
  - rewrite app_nil_r.
    destruct (started p !! i) as [cb|] eqn:Hi; simpl; [|split; [done|lia]].
    pose proof (completionCallback_cases cb GetBlob hook
                  (set_started p (delete i (started p)))) as (Hin & _).
    simpl in Hin. rewrite Hin. split; [|lia].
    destruct (extractOutputs GetBlob getOutputsNames ∅) as [e|outs] eqn:He.
    + rewrite (completionCallback_extraction_failed _ _ _ _ _ He). simpl.
      by apply accounted_extraction_failed with cb.
    + assert (Hout : outs ≠ ∅).
      { eapply extractOutputs_nonempty; [|done]. by left. }
      destruct hook as [e|].
      * rewrite (completionCallback_hook_failed _ _ _ _ _ He). simpl.
        apply accounted_record_exception. by apply accounted_stored.
      * rewrite (completionCallback_stored _ _ _ _ He). simpl.
        by apply accounted_stored.
  - rewrite app_nil_r. rewrite (surjective_pairing (getInferenceResult p)).
    simpl. split; [apply accounted_consume; [done|lia]|].
    destruct (getInferenceResult_cases p) as (r & p' & -> & _ & Hin & _).
    simpl. lia.
  - rewrite app_nil_r. split; [done|lia].
  - rewrite (surjective_pairing (submitImage_or_throw img now (Some e) p)).
    simpl. rewrite submitImage_or_throw_eq.
    destruct (StartAsync_cases img now p)
      as [(-> & Hs)|(-> & r & md & _ & Hs)].
    + rewrite app_nil_r.
      destruct Hs as [->|(pool & ->)]; split; try done; simpl; lia.
    + rewrite Hs. simpl. split; [|lia].
      pose proof (accounted_submitted lost p (<[r:=true]> (requestsPool p))
                    (mkCallback now (inputFrameId p) r md) true Hacc Hmax
                    eq_refl) as Hsub.
      by rewrite app_nil_r in Hsub.
Qed.

Lemma accounted_run calls lost (p : PipelineBase) (n : nat) :
  accounted lost p → inputFrameId p ≤ Z.of_nat n →
  Z.of_nat (n + length calls) ≤ INT64_MAX →
  accounted (lost ++ lost_frames calls p) (run_calls calls p).2.
Proof.
  revert lost p n. induction calls as [|c calls IH]; intros lost p n Hacc Hn Hlen.
  - simpl. by rewrite app_nil_r.
  - rewrite run_calls_cons. simpl. simpl in Hlen. rewrite app_assoc.
    destruct (accounted_step lost c p Hacc) as [Hacc' Hin]; [lia|].
    apply (IH _ _ (S n)); [done|lia|lia].
Qed.

End Accounted.

Lemma lost_frames_all_returning calls (p : PipelineBase) :
  (∀ c, c ∈ calls → ∃ ev, c = Returning ev) → lost_frames calls p = [].
Proof.
  revert p. induction calls as [|c calls IH]; intros p Hall; [done|].
  destruct (Hall c) as [ev ->]; [apply elem_of_cons; by left|].
  simpl. apply IH. intros c Hc. apply Hall, elem_of_cons. by right.
Qed.

(** X15. Under the assumptions of C1, take any run of calls from the
    construction, with [StartAsync] calls that return and [StartAsync] calls
    that throw. With no exception recorded, each frame id from
    [outputFrameId] up to [inputFrameId] is exactly one of three: in the
    store, the frame of exactly one started request, or a frame id lost to a
    [StartAsync] that threw. In a run whose [StartAsync] calls all returned
    no frame id is lost. *)
Theorem every_frame_in_flight_is_accounted_for (size : nat)
    (calls : list Call) (k : Z) :
  let p := (run_calls calls (PipelineBase_new size)).2 in
  let lost := lost_frames calls (PipelineBase_new size) in
  IsEmpty InferenceResult_new = true →
  (∀ r : InferenceResult,
     0 ≤ frameId r → outputsData r ≠ ∅ → IsEmpty r = false) →
  getOutputsNames ≠ [] →
  Z.of_nat (length calls) ≤ INT64_MAX →
  callbackException p = None →
  outputFrameId p ≤ k < inputFrameId p →
  NoDup (cb_frameID <$> started p)
  ∧ (is_Some (completedInferenceResults p !! k)
       ∧ (k ∉ cb_frameID <$> started p) ∧ k ∉ lost
     ∨ completedInferenceResults p !! k = None
       ∧ (k ∈ cb_frameID <$> started p) ∧ k ∉ lost
     ∨ completedInferenceResults p !! k = None
       ∧ (k ∉ cb_frameID <$> started p) ∧ k ∈ lost)
  ∧ ((∀ c, c ∈ calls → ∃ ev, c = Returning ev) → lost = []).
Proof.
  intros p lost Hnew Hfilled Hnames Hlen Hexc Hk.
  pose proof (accounted_run Hnew Hfilled Hnames calls []
                (PipelineBase_new size) 0 (accounted_new size)) as Hacc.
  simpl in Hacc. fold p lost in Hacc.
  destruct Hacc as (Hc & Hstore & Hst & Hnd & Hlost & Hall); [lia|lia|].
  split; [done|]. split; [|apply lost_frames_all_returning].
  destruct (decide (k ∈ lost)) as [Hin|Hnot].
  - right. right. destruct (Hlost _ Hin) as (_ & ? & ?). done.
  - destruct (completedInferenceResults p !! k) as [r|] eqn:Hl.
    + left. split_and!; [done| |done].
      intros (cb & -> & Hcb)%list_elem_of_fmap.
      destruct (Hst _ Hcb) as [_ Hnone]. congruence.
    + right. left. split_and!; [done| |done].
      destruct (Hall Hexc k Hk) as [[r Hr]|[?|?]]; [congruence|done|done].
Qed.


End Properties.

(** * The properties on the concrete pipeline *)

#[local] Existing Instances Scenario.decl Scenario.model.

(** In [Scenario.out_of_order] the second frame completes first: the first
    retrieval finds nothing, the second delivers frame 0, and one more
    retrieval delivers frame 1 and empties the store. *)
Lemma ordered_delivery_witness :
  let obs := (run Scenario.out_of_order (PipelineBase_new 2)).1 in
  let p := (run Scenario.out_of_order (PipelineBase_new 2)).2 in
  let rest := run [GetInferenceResult] p in
  accepted obs = [0; 1]
  ∧ delivered obs = [0]
  ∧ delivered (obs ++ rest.1) = [0; 1]
  ∧ completedInferenceResults rest.2 = ∅.
Proof.
  intros obs p rest.
  assert (Hnew : IsEmpty InferenceResult_new = true) by reflexivity.
  assert (Hfilled : ∀ r : @InferenceResult nat nat,
             0 ≤ frameId r → outputsData r ≠ ∅ → IsEmpty r = false).
  { intros r _ Hout. by apply bool_decide_eq_false. }
  assert (Hnames : getOutputsNames ≠ []) by done.
  assert (Hlen : Z.of_nat (length Scenario.out_of_order) ≤ INT64_MAX)
    by (vm_compute; discriminate).
  destruct (ordered_delivery 2 Scenario.out_of_order Hnew Hfilled Hnames Hlen)
    as (Hacc & Hdel & _ & _ & Hdrain).
  fold obs p in Hacc, Hdel, Hdrain.
  split; [rewrite Hacc; by vm_compute|].
  split; [rewrite Hdel; by vm_compute|].
  destruct Hdrain as [Hall Hempty]; [by vm_compute|by vm_compute|].
  split; [|exact Hempty].
  etrans; [exact Hall|]. rewrite Hacc. by vm_compute.
Defined.

(** C2 as stated fails: with the exception of the second frame recorded and
    the result of the first frame in the store, [getInferenceResult] and
    [getResult] return that result and throw nothing. *)
Lemma retrieval_ignores_recorded_exception :
  let p := (run Scenario.failure_then_result (PipelineBase_new 2)).2 in
  callbackException p = Some "GetBlob failed"%string
  ∧ waitForData p = Some (inl "GetBlob failed"%string)
  ∧ (∃ r, (getInferenceResult p).1 = inr r
          ∧ frameId r = 0 ∧ IsEmpty r = false)
  ∧ (getResult p).1 = inr (Some (mkResult 0 1%nat 1%nat)).
Proof.
  split_and!; [by vm_compute|by vm_compute| |by vm_compute].
  eexists. split_and!; by vm_compute.
Qed.

Lemma recorded_exception_is_sticky_witness :
  let p := (run Scenario.failure_then_result (PipelineBase_new 2)).2 in
  let evs := [WaitForData; SubmitImage 3%nat 12;
              Completion 0 (Scenario.answers 9) None; WaitForData] in
  callbackException (run evs p).2 = Some "GetBlob failed"%string
  ∧ waitForData (run evs p).2 = Some (inl "GetBlob failed"%string)
  ∧ (getInferenceResult (run evs p).2).1 = inr (Scenario.first_result 7)
  ∧ (getResult (run evs p).2).1 = inr (Some (mkResult 0 1%nat 1%nat))
  ∧ callbackException (getInferenceResult (run evs p).2).2
    = Some "GetBlob failed"%string.
Proof.
  intros p evs.
  destruct (recorded_exception_is_sticky p "GetBlob failed"%string evs)
    as (Hexc & Hwait & _ & _ & _ & _ & Hget & Hres & _ & Hkeep);
    [by vm_compute|].
  split_and!; [exact Hexc|exact Hwait| | |exact Hkeep].
  - rewrite Hget. by vm_compute.
  - rewrite Hres. by vm_compute.
Defined.

Lemma submitImage_rejects_and_keeps_state_witness :
  let p := (run [SubmitImage 1%nat 10; SubmitImage 2%nat 11]
              (PipelineBase_new 2)).2 in
  submitImage 3%nat 12 p = (inr (-1), p).
Proof.
  intros p. apply (submitImage_rejects_and_keeps_state 3%nat 12 p).
  by vm_compute.
Defined.

Lemma first_failure_wins_witness :
  let p := (run Scenario.failure_then_result (PipelineBase_new 2)).2 in
  callbackException
    (completionCallback Scenario.first_callback (Scenario.fails_with "later")
       None p).2
  = Some "GetBlob failed"%string.
Proof.
  intros p.
  rewrite (first_failure_wins Scenario.first_callback
             (Scenario.fails_with "later") None "later"%string p);
    by vm_compute.
Defined.

(** C7 as stated fails: the callback of the first frame runs a second time,
    with another blob, while its first result is still in the store; the
    pipeline is exactly as it was before the second run, and no exception is
    recorded. *)
Lemma second_completion_goes_undetected :
  let p0 := (run Scenario.one_submission (PipelineBase_new 1)).2 in
  let p1 :=
    (completionCallback Scenario.first_callback (Scenario.answers 7) None
       p0).2 in
  let p2 :=
    (completionCallback Scenario.first_callback (Scenario.answers 8) None
       p1).2 in
  is_Some (completedInferenceResults p1 !! 0)
  ∧ p2 = p1
  ∧ callbackException p2 = None.
Proof. split_and!; [eexists|..]; by vm_compute. Qed.

Lemma duplicate_completion_is_ignored_witness :
  let p0 := (run Scenario.one_submission (PipelineBase_new 1)).2 in
  let p1 :=
    (completionCallback Scenario.first_callback (Scenario.answers 7) None
       p0).2 in
  (completionCallback Scenario.first_callback (Scenario.answers 8) None p1).2
  = set_requestsPool p1 (setRequestIdle (requestsPool p1) 0%nat).
Proof.
  intros p0 p1.
  eapply (duplicate_completion_is_ignored Scenario.first_callback
            (Scenario.answers 8) _ _ p1); by vm_compute.
Defined.

(** C8 as stated fails: the only request of the pool is started, its
    extraction fails, and after the callback the request is still busy, with
    no started request left that could set it idle. *)
Lemma failed_extraction_keeps_request_busy :
  let p := (run [SubmitImage 1%nat 10; Completion 0 Scenario.fails None]
              (PipelineBase_new 1)).2 in
  requestsPool p = [true]
  ∧ started p = []
  ∧ isIdleRequestAvailable (requestsPool p) = false.
Proof. split_and!; by vm_compute. Qed.

Lemma callback_releases_request_after_extraction_witness :
  let p := (run Scenario.one_submission (PipelineBase_new 1)).2 in
  requestsPool
    (completionCallback Scenario.first_callback (Scenario.answers 7)
       (Some "hook failed"%string) p).2 !! 0%nat
  = Some false.
Proof.
  intros p.
  assert (Hlt : (cb_request Scenario.first_callback
                 < length (requestsPool p))%nat) by (vm_compute; lia).
  exact (callback_releases_request_after_extraction Scenario.first_callback
           (Scenario.answers 7) (Some "hook failed"%string) p Hlt).
Defined.

Lemma frame_counters_wrap_to_zero_witness :
  let p := (run [SubmitImage 1%nat 10; Completion 0 (Scenario.answers 7) None]
              (PipelineBase_new 1)).2 in
  inputFrameId (submitRequest 0%nat 2%nat 11 p).2 = 2
  ∧ outputFrameId (getInferenceResult p).2 = 1.
Proof.
  intros p.
  destruct (frame_counters_wrap_to_zero 1
              [SubmitImage 1%nat 10; Completion 0 (Scenario.answers 7) None])
    as (_ & Hin & Hout).
  fold p in Hin, Hout. split.
  - rewrite Hin. by vm_compute.
  - erewrite Hout; [by vm_compute|by vm_compute|by vm_compute|].
    eexists. by vm_compute.
Defined.

Lemma rejection_sentinel_is_unambiguous_witness :
  let p := (run Scenario.one_submission (PipelineBase_new 2)).2 in
  (1 = -1 ↔ isIdleRequestAvailable (requestsPool p) = false)
  ∧ (isIdleRequestAvailable (requestsPool p) = true →
     0 ≤ 1 ∧ 1 = inputFrameId p).
Proof.
  intros p.
  apply (rejection_sentinel_is_unambiguous 2 Scenario.one_submission
           2%nat 11 1).
  by vm_compute.
Defined.

Lemma getInferenceResult_absent_keeps_state_witness :
  let p := (run Scenario.failure_then_result (PipelineBase_new 2)).2 in
  let p' := (getInferenceResult p).2 in
  getInferenceResult p' = (inr InferenceResult_new, p')
  ∧ getResult p' = (inr None, p').
Proof.
  intros p p'.
  apply (getInferenceResult_absent_keeps_state p'); by vm_compute.
Defined.

(** ** The further properties on the concrete pipeline *)

Lemma completion_stores_the_result_of_its_submission_witness :
  let p := (run Scenario.one_submission (PipelineBase_new 1)).2 in
  completedInferenceResults
    (completionCallback Scenario.first_callback (Scenario.answers 7)
       (Some "hook failed"%string) p).2
  = <[0 := Scenario.first_result 7]> (completedInferenceResults p).
Proof.
  intros p.
  apply (completion_stores_the_result_of_its_submission
           Scenario.first_callback (Scenario.answers 7)
           (Some "hook failed"%string) _ p); by vm_compute.
Defined.

Lemma completion_ends_the_wait_witness :
  let p := (run Scenario.one_submission (PipelineBase_new 1)).2 in
  waitForData p = None
  ∧ is_Some (waitForData
               (completionCallback Scenario.first_callback Scenario.fails
                  None p).2).
Proof.
  intros p. split; [by vm_compute|].
  apply (completion_ends_the_wait Scenario.first_callback Scenario.fails
           None p).
  vm_compute. lia.
Defined.

Lemma full_pool_rejects_submission_witness :
  let p := (run [SubmitImage 1%nat 10; SubmitImage 2%nat 11]
              (PipelineBase_new 2)).2 in
  submitImage 3%nat 12 p = (inr (-1), p).
Proof.
  intros p.
  apply (full_pool_rejects_submission 2
           [SubmitImage 1%nat 10; SubmitImage 2%nat 11] 3%nat 12).
  by vm_compute.
Defined.

Lemma completed_request_can_be_submitted_again_witness :
  let p := (run Scenario.one_submission (PipelineBase_new 1)).2 in
  let p' := (step (Completion 0 (Scenario.answers 7) None) p).2 in
  isIdleRequestAvailable (requestsPool p) = false
  ∧ isIdleRequestAvailable (requestsPool p') = true
  ∧ (submitImage 2%nat 11 p').1 = inr 1.
Proof.
  intros p p'.
  destruct (completed_request_can_be_submitted_again 1 Scenario.one_submission
              0 (Scenario.answers 7) None
              {["detection_out"%string := 7%nat]} 2%nat 11)
    as [Hidle _]; [eexists; by vm_compute|by vm_compute|].
  split_and!; [by vm_compute|exact Hidle|by vm_compute].
Defined.

Lemma failed_extraction_loses_the_request_witness :
  let p := (run Scenario.one_submission (PipelineBase_new 1)).2 in
  let p' := (step (Completion 0 Scenario.fails None) p).2 in
  requestsPool
    (run [SubmitImage 2%nat 11; WaitForData; GetInferenceResult] p').2
    !! 0%nat
  = Some true.
Proof.
  intros p p'.
  apply (failed_extraction_loses_the_request 1 Scenario.one_submission
           [SubmitImage 2%nat 11; WaitForData; GetInferenceResult] 0
           Scenario.first_callback Scenario.fails None
           "GetBlob failed"%string); by vm_compute.
Defined.

Lemma getResult_consumes_before_postprocess_witness :
  let p := (run Scenario.one_completed (PipelineBase_new 1)).2 in
  (getResult p).1 = inr (Some (mkResult 0 1%nat 1%nat))
  ∧ completedInferenceResults (getResult p).2 = ∅
  ∧ outputFrameId (getResult p).2 = 1.
Proof.
  intros p.
  destruct (getResult_consumes_before_postprocess 1 Scenario.one_completed
              (Scenario.first_result 7)) as [Hval Hstate];
    [by vm_compute|by vm_compute|].
  fold p in Hval, Hstate. split; [exact Hval|].
  rewrite Hstate. split; by vm_compute.
Defined.

Lemma getResult_returns_the_frame_of_outputFrameId_witness :
  let p := (run Scenario.one_completed (PipelineBase_new 1)).2 in
  ∃ r, completedInferenceResults p !! outputFrameId p = Some r
       ∧ 0 = outputFrameId p
       ∧ 1%nat = metaData r
       ∧ postprocess r = inr 1%nat.
Proof.
  intros p.
  destruct (getResult_returns_the_frame_of_outputFrameId 1
              Scenario.one_completed) as [Hsome _]; [by vm_compute|].
  apply (Hsome (mkResult 0 1%nat 1%nat)). by vm_compute.
Defined.

Lemma delivered_result_carries_its_submission_witness :
  ∃ img request,
    (0, 10, img)
      ∈ submissions Scenario.out_of_order
          (run Scenario.out_of_order (PipelineBase_new 2)).1
    ∧ preprocess img request = inr 1%nat.
Proof.
  apply (delivered_result_carries_its_submission 2 Scenario.out_of_order
           (Scenario.first_result 8)); [by vm_compute|].
  vm_compute. constructor.
Defined.

Lemma failed_frame_stops_the_delivery_witness :
  let run_all :=
    run ([SubmitImage 1%nat 10; SubmitImage 2%nat 11]
         ++ Completion 0 Scenario.fails None
            :: [Completion 0 (Scenario.answers 7) None; GetInferenceResult;
                SubmitImage 3%nat 12; GetInferenceResult])
      (PipelineBase_new 2) in
  outputFrameId run_all.2 ≤ 0
  ∧ Forall (λ id, id < 0) (delivered run_all.1).
Proof.
  apply (failed_frame_stops_the_delivery 2
           [SubmitImage 1%nat 10; SubmitImage 2%nat 11]
           [Completion 0 (Scenario.answers 7) None; GetInferenceResult;
            SubmitImage 3%nat 12; GetInferenceResult]
           0 Scenario.first_callback Scenario.fails None
           "GetBlob failed"%string).
  - reflexivity.
  - intros r _ Hout. by apply bool_decide_eq_false.
  - done.
  - vm_compute. discriminate.
  - by vm_compute.
  - by vm_compute.
Defined.

Lemma accepted_submission_starts_one_request_witness :
  let p := (run Scenario.one_submission (PipelineBase_new 2)).2 in
  let p' := (submitImage 2%nat 11 p).2 in
  ∃ r md,
    requestsPool p !! r = Some false
    ∧ preprocess 2%nat r = inr md
    ∧ 1 = inputFrameId p
    ∧ started p' = started p ++ [mkCallback 11 1 r md]
    ∧ requestsPool p' = <[r := true]> (requestsPool p)
    ∧ requestsPool p' !! r = Some true
    ∧ length (started p') = S (length (started p)).
Proof.
  apply (accepted_submission_starts_one_request 2 Scenario.one_submission
           2%nat 11 1); by vm_compute.
Defined.

Lemma wait_then_retrieve_delivers_witness :
  let p := (run Scenario.result_ready_pool_busy (PipelineBase_new 1)).2 in
  ∃ r, (getInferenceResult p).1 = inr r
       ∧ IsEmpty r = false
       ∧ frameId r = outputFrameId p
       ∧ outputFrameId (getInferenceResult p).2 = outputFrameId p + 1.
Proof.
  apply (wait_then_retrieve_delivers 1 Scenario.result_ready_pool_busy).
  - reflexivity.
  - intros r _ Hout. by apply bool_decide_eq_false.
  - done.
  - vm_compute. discriminate.
  - by vm_compute.
  - by vm_compute.
Defined.

Lemma extraction_copies_every_declared_output_witness :
  ∃ outputs,
    extractOutputs (Scenario.answers 7) getOutputsNames ∅ = inr outputs
    ∧ outputs !! "detection_out"%string = Some 7%nat
    ∧ outputs !! "other_out"%string = None.
Proof.
  destruct (extraction_copies_every_declared_output (Scenario.answers 7))
    as [[_ Hsucceeds] Hlookup].
  destruct Hsucceeds as [outputs Hx]; [intros n _; by eexists|].
  exists outputs. split; [exact Hx|].
  split; rewrite (Hlookup _ _ Hx); by vm_compute.
Defined.

Lemma extraction_fails_with_first_exception_witness :
  let p := (run Scenario.one_submission (PipelineBase_new 1)).2 in
  let p' :=
    (completionCallback Scenario.first_callback Scenario.fails None p).2 in
  completedInferenceResults p' = completedInferenceResults p
  ∧ callbackException p' = Some "GetBlob failed"%string.
Proof.
  intros p p'.
  destruct (extraction_fails_with_first_exception Scenario.first_callback
              Scenario.fails None "GetBlob failed"%string p)
    as [_ Hfailed].
  destruct Hfailed as [Hstore Hexc]; [by vm_compute|].
  split; [exact Hstore|]. unfold p'. rewrite Hexc. by vm_compute.
Defined.

Lemma empty_pool_accepts_nothing_witness :
  (run Scenario.out_of_order (PipelineBase_new 0)).2 = PipelineBase_new 0
  ∧ accepted (run Scenario.out_of_order (PipelineBase_new 0)).1 = []
  ∧ delivered (run Scenario.out_of_order (PipelineBase_new 0)).1 = []
  ∧ Forall (λ o, ∀ r, o = Waited r → r = None)
      (run Scenario.out_of_order (PipelineBase_new 0)).1.
Proof.
  apply (empty_pool_accepts_nothing Scenario.out_of_order). reflexivity.
Defined.

Lemma every_frame_in_flight_is_accounted_for_witness :
  let p := (run_calls Scenario.second_start_refused (PipelineBase_new 3)).2 in
  let lost :=
    lost_frames Scenario.second_start_refused (PipelineBase_new 3) in
  outputFrameId p = 1 ∧ inputFrameId p = 3 ∧ lost = [1]
  ∧ (is_Some (completedInferenceResults p !! 2)
       ∧ (2 ∉ cb_frameID <$> started p) ∧ 2 ∉ lost
     ∨ completedInferenceResults p !! 2 = None
       ∧ (2 ∈ cb_frameID <$> started p) ∧ 2 ∉ lost
     ∨ completedInferenceResults p !! 2 = None
       ∧ (2 ∉ cb_frameID <$> started p) ∧ 2 ∈ lost)
  ∧ (is_Some (completedInferenceResults p !! 1)
       ∧ (1 ∉ cb_frameID <$> started p) ∧ 1 ∉ lost
     ∨ completedInferenceResults p !! 1 = None
       ∧ (1 ∈ cb_frameID <$> started p) ∧ 1 ∉ lost
     ∨ completedInferenceResults p !! 1 = None
       ∧ (1 ∉ cb_frameID <$> started p) ∧ 1 ∈ lost).
Proof.
  intros p lost.
  assert (Hnew : IsEmpty InferenceResult_new = true) by reflexivity.
  assert (Hfilled : ∀ r : @InferenceResult nat nat,
             0 ≤ frameId r → outputsData r ≠ ∅ → IsEmpty r = false).
  { intros r _ Hout. by apply bool_decide_eq_false. }
  assert (Hnames : getOutputsNames ≠ []) by done.
  assert (Hlen : Z.of_nat (length Scenario.second_start_refused) ≤ INT64_MAX)
    by (vm_compute; discriminate).
  assert (Hexc : callbackException p = None) by (by vm_compute).
  split_and!; [by vm_compute|by vm_compute|by vm_compute| |].
  - apply (every_frame_in_flight_is_accounted_for 3
             Scenario.second_start_refused 2 Hnew Hfilled Hnames Hlen Hexc).
    vm_compute. split; [discriminate|reflexivity].
  - apply (every_frame_in_flight_is_accounted_for 3
             Scenario.second_start_refused 1 Hnew Hfilled Hnames Hlen Hexc).
    vm_compute. split; [discriminate|reflexivity].
Defined.


Lemma StartAsync_outcome_decides_the_submission_witness :
  let p := (run Scenario.one_submission (PipelineBase_new 2)).2 in
  let refused :=
    submitImage_or_throw 2%nat 11 (Some "device lost"%string) p in
  refused.1 = inl "device lost"%string
  ∧ inputFrameId refused.2 = 2
  ∧ requestsPool refused.2 = [true; true]
  ∧ length (started refused.2) = 1%nat
  ∧ callbackException refused.2 = None.
Proof.
  intros p refused.
  destruct (StartAsync_outcome_decides_the_submission 2%nat 11
              "device lost"%string p) as (_ & Heq & _).
  unfold refused. rewrite Heq. split_and!; by vm_compute.
Defined.

Section StrictModel.

#[local] Existing Instance Scenario.strict_model | 0.

Lemma failed_preprocess_loses_the_request_witness :
  let p := PipelineBase_new 2 in
  let p' := (submitImage 0%nat 10 p).2 in
  ∃ r, requestsPool p !! r = Some false
       ∧ preprocess 0%nat r = inl "empty image"%string
       ∧ p' = set_requestsPool p (<[r := true]> (requestsPool p))
       ∧ requestsPool
           (run [SubmitImage 1%nat 11; Completion 0 (Scenario.answers 7) None;
                 SubmitImage 2%nat 12] p').2 !! r
         = Some true.
Proof.
  apply (failed_preprocess_loses_the_request 2 []
           [SubmitImage 1%nat 11; Completion 0 (Scenario.answers 7) None;
            SubmitImage 2%nat 12] 0%nat 10 "empty image"%string).
  by vm_compute.
Defined.

End StrictModel.

Section SilentModel.

#[local] Existing Instance Scenario.silent_model | 0.

Lemma empty_stored_result_is_dropped_witness :
  let p := (run Scenario.one_completed (PipelineBase_new 1)).2 in
  let r := mkInferenceResult 0 1%nat ∅ 10 in
  let p' := (getInferenceResult p).2 in
  getInferenceResult p
  = (inr r, set_completedInferenceResults p
              (delete (outputFrameId p) (completedInferenceResults p)))
  ∧ getInferenceResult p' = (inr InferenceResult_new, p').
Proof.
  intros p r.
  apply (empty_stored_result_is_dropped p r); by vm_compute.
Defined.

End SilentModel.
